(** * Bike Sharing dashboard ([app.py]): embedding and verified properties

    The script is a linear Streamlit program: it loads [day.csv] through a
    cached loader, filters the table by year and season, shows four metrics,
    draws four charts, bins the daily counts into three clusters and draws
    two more charts.

    The embedding follows the script statement by statement.  Data frames
    live in a store of objects (a [gmap] from locations to frames), so that
    [copy], boolean indexing and column assignment have the aliasing they
    have in Python.  Exceptions and [st.stop()] are outcomes of a small
    state-and-exception monad.  The pandas operations the script calls are
    collected in [Module Pd]; their float64 arithmetic is binary64
    arithmetic ([Module F64]): exact rationals, rounded to nearest-even
    after every operation, plus a [NaN]. *)

From Stdlib Require Import ZArith QArith Qround Qpower Qabs Qreduction Lia Lqa.
From Stdlib Require Qcanon.
From stdpp Require Import base option list sorting gmap strings.

(** ** Exceptions *)

Inductive exn :=
  | FileNotFoundError
  | KeyError (col : string)
  | ValueError (msg : string).

Inductive result (A : Type) :=
  | Ok (a : A)
  | Raise (e : exn).
Arguments Ok {A} a.
Arguments Raise {A} e.

Definition result_bind {A B} (r : result A) (k : A → result B) : result B :=
  match r with
  | Ok a => k a
  | Raise e => Raise e
  end.

(** ** Binary64 arithmetic *)

(** A finite float64 is a rational [m * 2^e] with [|m| < 2^53].  Every
    operation is the exact operation followed by rounding to the nearest
    such number, ties to even.  The exponent range is not bounded: the
    script's values stay far from overflow and from the subnormal range. *)
Module F64.

Definition pow2 (k : Z) : Q := (2 ^ k)%Q.

(** [ilog2 q], for [q > 0]: the [k] with [2^k <= q < 2^(k+1)]. *)
Definition ilog2 (q : Q) : Z :=
  let k0 := (Z.log2 (Qnum q) - Z.log2 (Zpos (Qden q)))%Z in
  if Qle_bool (pow2 k0) q then k0 else (k0 - 1)%Z.

(** Round to the nearest integer, ties to even. *)
Definition round_half_even (x : Q) : Z :=
  let f := Qfloor x in
  match (x - inject_Z f ?= 1 # 2)%Q with
  | Lt => f
  | Gt => (f + 1)%Z
  | Eq => if Z.even f then f else (f + 1)%Z
  end.

(** The nearest number with a 53-bit significand, for [q > 0]. *)
Definition round_pos (q : Q) : Q :=
  let e := (ilog2 q - 52)%Z in
  (inject_Z (round_half_even (q / pow2 e)) * pow2 e)%Q.

Definition round (q : Q) : Q :=
  match Qnum q with
  | Z0 => 0
  | Zpos _ => Qred (round_pos q)
  | Zneg _ => Qred (- round_pos (- q))
  end.

Definition add (x y : Q) : Q := round (x + y).
Definition sub (x y : Q) : Q := round (x - y).
Definition mul (x y : Q) : Q := round (x * y).
(** Division is only used with a divisor that is not zero. *)
Definition div (x y : Q) : Q := round (x / y).

(** An int64 converted to float64. *)
Definition of_Z (z : Z) : Q := round (inject_Z z).

End F64.

(** ** The pandas operations used by the script *)

(** The operations follow pandas 2.x on numpy 1.22 or later, on an int64
    column: every float operation they perform is written out. *)
Module Pd.

(** A float64: [NaN] or a finite value. *)
Inductive num :=
  | NaN
  | Num (q : Q).

Definition num_eqb (a b : num) : bool :=
  match a, b with
  | NaN, NaN => true
  | Num p, Num q => Qeq_bool p q
  | _, _ => false
  end.

(** Order used on sorted float arrays: [NaN] sorts last. *)
Definition num_lt (a : num) (v : Q) : bool :=
  match a with
  | NaN => false
  | Num b => negb (Qle_bool v b)
  end.

(** [Series.isin(values)]: a missing value is in no list of strings. *)
Definition isin (values : list string) (v : option string) : bool :=
  match v with
  | Some s => bool_decide (s ∈ values)
  | None => false
  end.

(** [frame[mask]]: the entries whose mask entry is [True], in order. *)
Fixpoint getitem_mask {A} (l : list A) (mask : list bool) : list A :=
  match l, mask with
  | x :: l', b :: mask' =>
      if b then x :: getitem_mask l' mask' else getitem_mask l' mask'
  | _, _ => []
  end.

(** int64 arithmetic wraps around. *)
Definition int64 (z : Z) : Z := ((z + 2 ^ 63) mod 2 ^ 64 - 2 ^ 63)%Z.

(** The exact sum of a column (used in statements only). *)
Definition sum (xs : list Z) : Z := foldr Z.add 0%Z xs.

(** A float64 sum: one rounding per addition, from left to right.  (numpy
    adds the blocks of a long array pairwise; the order of the additions
    matters only when a partial sum is not representable, see
    [fsum_order_irrelevant].) *)
Definition fsum (xs : list Q) : Q := foldl F64.add 0%Q xs.

(** [Series.mean()] of an int64 column ([nanops.nanmean]): the float64 sum
    of the values converted to float64, divided by their number; [NaN] on
    an empty column. *)
Definition mean (xs : list Z) : num :=
  match xs with
  | [] => NaN
  | _ :: _ =>
      Num (F64.div (fsum (F64.of_Z <$> xs)) (F64.of_Z (Z.of_nat (length xs))))
  end.

(** The mean of one group in [groupby(...).mean()] ([group_mean]): Kahan
    summation of the values converted to float64, divided by their
    number. *)
Definition kahan_step (acc : Q * Q) (val : Q) : Q * Q :=
  let '(sumx, compensation) := acc in
  let y := F64.sub val compensation in
  let t := F64.add sumx y in
  (t, F64.sub (F64.sub t sumx) y).

Definition group_mean (xs : list Z) : num :=
  match xs with
  | [] => NaN
  | _ :: _ =>
      Num (F64.div (foldl kahan_step (0%Q, 0%Q) (F64.of_Z <$> xs)).1
                   (F64.of_Z (Z.of_nat (length xs))))
  end.

(** [Series.max()], [Series.min()] of an int64 column: missing on an empty
    column. *)
Definition max (xs : list Z) : option Z :=
  match xs with
  | [] => None
  | x :: t => Some (foldr Z.max x t)
  end.

Definition min (xs : list Z) : option Z :=
  match xs with
  | [] => None
  | x :: t => Some (foldr Z.min x t)
  end.

(** [np.linspace(start, stop, num)] on float64 end points: the step is
    computed once, the points are [k * step + start], and the last point
    is set to [stop]. *)
Definition linspace (start stop : Q) (num : nat) : list Q :=
  let div := inject_Z (Z.of_nat (num - 1)) in
  let delta := F64.sub stop start in
  let step := F64.div delta div in
  let y :=
    (λ k : nat,
       let k := inject_Z (Z.of_nat k) in
       if Qeq_bool step 0
       then F64.add (F64.mul (F64.div k div) delta) start
       else F64.add (F64.mul k step) start)
    <$> seq 0 num in
  match num with
  | 0 | 1 => y
  | _ => take (num - 1) y ++ [stop]
  end.

(** numpy's [_lerp] between two int64 entries [a] and [b] at the weight
    [t]: [a + (b - a) * t], computed from [b] when [t >= 0.5]. *)
Definition lerp (a b : Z) (t : Q) : Q :=
  let diff_b_a := F64.of_Z (int64 (b - a)) in
  if Qle_bool (1 # 2) t
  then F64.sub (F64.of_Z b) (F64.mul diff_b_a (F64.sub 1 t))
  else F64.add (F64.of_Z a) (F64.mul diff_b_a t).

(** [np.percentile(a, p)] with linear interpolation, on the sorted values
    [a] of a non-empty int64 array ([d] is the default of [nth], never
    used): the quantile is [p / 100], the virtual index [(n - 1) * q]; at
    or above the last index both neighbours are the last entry, otherwise
    they are the entries at the floor of the virtual index and after it,
    and the weight is the fractional part. *)
Definition percentile (a : list Z) (d : Z) (p : Q) : Q :=
  let n := Z.of_nat (length a) in
  let q := F64.div p 100 in
  let virtual_index := F64.mul (F64.of_Z (n - 1)) q in
  if Qle_bool (F64.of_Z (n - 1)) virtual_index then
    let last := nth (Z.to_nat (n - 1)) a d in
    lerp last last (F64.add virtual_index 1)
  else
    let previous := inject_Z (Qfloor virtual_index) in
    let next := F64.add previous 1 in
    let gamma := F64.sub virtual_index previous in
    lerp (nth (Z.to_nat (Qfloor previous)) a d) (nth (Z.to_nat (Qfloor next)) a d)
         gamma.

(** [Series.quantile(q)] ([NaN] when there is no value): pandas hands
    [q * 100] to [np.percentile]. *)
Definition quantile (xs : list Z) (q : Q) : num :=
  match merge_sort Z.le xs with
  | [] => NaN
  | a0 :: t => Num (percentile (a0 :: t) a0 (F64.mul q 100))
  end.

(** [algos.unique]: first occurrences, [NaN] equal to [NaN]. *)
Fixpoint unique (l : list num) : list num :=
  match l with
  | [] => []
  | b :: t => b :: List.filter (λ c, negb (num_eqb b c)) (unique t)
  end.

(** [bins.searchsorted(v, side="left")]: the first index [i] with
    [v <= bins[i]], found by a scan from the left.  On sorted edges the
    scan finds the index the binary search finds; the edges of a column
    with counts in range are sorted, see [binning_recovers]. *)
Fixpoint searchsorted_left (bins : list num) (v : Q) : nat :=
  match bins with
  | [] => 0
  | b :: t => if num_lt b v then S (searchsorted_left t v) else 0
  end.

(** One entry of [_bins_to_cuts] (with [right=True]): the bin index of the
    value converted to float64, moved to the first bin when
    [include_lowest] and the value is the lowest edge; no label outside
    the edges. *)
Definition bin_index (bins : list num) (include_lowest : bool) (v : Z) : nat :=
  let ids := searchsorted_left bins (F64.of_Z v) in
  if include_lowest && num_eqb (Num (F64.of_Z v)) (default NaN (head bins))
  then 1 else ids.

Definition bin_label (bins : list num) (labels : list string)
    (include_lowest : bool) (v : Z) : option string :=
  let ids := bin_index bins include_lowest v in
  if (ids =? length bins) || (ids =? 0) then None
  else labels !! (ids - 1).

Definition bins_to_cuts (x : list Z) (bins : list num) (labels : list string)
    (include_lowest : bool) : result (list (option string)) :=
  if (length (unique bins) <? length bins) && negb (length bins =? 2)
  then Raise (ValueError "Bin edges must be unique")
  else if negb (length labels =? length bins - 1)
  then Raise (ValueError "Bin labels must be one fewer than the number of bin edges")
  else Ok (bin_label bins labels include_lowest <$> x).

(** [pd.qcut(x, q, labels)]: edges at the quantiles [linspace(0, 1, q+1)];
    duplicate edges raise; the lowest edge is included. *)
Definition qcut (x : list Z) (q : nat) (labels : list string)
  : result (list (option string)) :=
  let quantiles := linspace 0 1 (q + 1) in
  let bins := quantile x <$> quantiles in
  bins_to_cuts x bins labels true.

(** The float64 literal [0.001]. *)
Definition c001 : Q := F64.round (1 # 1000).

(** [_nbins_to_bins] (with [right=True]): [nbins] equal-width bins over
    [min, max]; an empty array raises; a constant array is widened by 0.1%
    on both sides, otherwise the lowest edge is lowered by 0.1% of the
    range. *)
Definition nbins_to_bins (x : list Z) (nbins : nat) : result (list num) :=
  if (nbins <? 1) then Raise (ValueError "`bins` should be a positive integer.")
  else
    match min x, max x with
    | Some mn, Some mx =>
        if (mn =? mx)%Z then
          let mn' :=
            F64.sub (F64.of_Z mn)
              (if (mn =? 0)%Z then c001
               else F64.mul c001 (F64.of_Z (int64 (Z.abs mn)))) in
          let mx' :=
            F64.add (F64.of_Z mx)
              (if (mx =? 0)%Z then c001
               else F64.mul c001 (F64.of_Z (int64 (Z.abs mx)))) in
          Ok (Num <$> linspace mn' mx' (nbins + 1))
        else
          let adj := F64.mul (F64.of_Z (int64 (mx - mn))) c001 in
          match linspace (F64.of_Z mn) (F64.of_Z mx) (nbins + 1) with
          | b0 :: bs => Ok (Num <$> F64.sub b0 adj :: bs)
          | [] => Ok []
          end
    | _, _ => Raise (ValueError "Cannot cut empty array")
    end.

(** [pd.cut(x, bins=nbins, labels, include_lowest)]. *)
Definition cut (x : list Z) (nbins : nat) (labels : list string)
    (include_lowest : bool) : result (list (option string)) :=
  result_bind (nbins_to_bins x nbins)
    (λ bins, bins_to_cuts x bins labels include_lowest).

End Pd.

(** ** Tables *)

Record date := { d_year : Z; d_month : Z; d_day : Z }.

(** A line of [day.csv] as [pd.read_csv] and [pd.to_datetime] deliver it
    (the columns the script reads). *)
Record RawRow := {
  raw_dteday : date;
  raw_season : Z;
  raw_weathersit : Z;
  raw_workingday : Z;
  raw_temp : Q;
  raw_hum : Q;
  raw_cnt : Z;
}.

(** A row of the table returned by [load_data]: [season] and [weathersit]
    hold the mapped labels, [None] standing for pandas' missing value. *)
Record Row := {
  dteday : date;
  season : option string;
  weathersit : option string;
  workingday : Z;
  temp : Q;
  hum : Q;
  cnt : Z;
  month : Z;
  year : Z;
  workingday_label : option string;
}.

(** A data frame: its rows, and the [cnt_cluster] column once the script
    has assigned it. *)
Record frame := {
  rows : list Row;
  cnt_cluster : option (list (option string));
}.

Global Instance frame_inhabited : Inhabited frame :=
  populate {| rows := []; cnt_cluster := None |}.

(** [df[mask]]: a new frame with the selected rows of every column. *)
Definition frame_getitem (f : frame) (mask : list bool) : frame :=
  {| rows := Pd.getitem_mask (rows f) mask;
     cnt_cluster := (λ c, Pd.getitem_mask c mask) <$> cnt_cluster f |}.

Definition column {A} (f : frame) (col : Row → A) : list A := col <$> rows f.

(** ** The loader's lookup tables (lines 21-32) *)

Definition season_map : gmap Z string :=
  list_to_map [(1, "Spring"); (2, "Summer"); (3, "Fall"); (4, "Winter")]%Z.

Definition weather_map : gmap Z string :=
  list_to_map [(1, "Clear"); (2, "Mist/Cloudy"); (3, "Light Rain/Snow");
               (4, "Heavy Rain/Snow")]%Z.

Definition workingday_map : gmap Z string :=
  list_to_map [(0, "Akhir Pekan/Hari Libur"); (1, "Hari Kerja")]%Z.

(** The column assignments of [load_data], row by row: [Series.map(dict)]
    looks each code up and leaves a missing value for an absent key. *)
Definition load_row (r : RawRow) : Row :=
  {| dteday := raw_dteday r;
     season := season_map !! raw_season r;
     weathersit := weather_map !! raw_weathersit r;
     workingday := raw_workingday r;
     temp := raw_temp r;
     hum := raw_hum r;
     cnt := raw_cnt r;
     month := d_month (raw_dteday r);
     year := d_year (raw_dteday r);
     workingday_label := workingday_map !! raw_workingday r |}.

(** ** The script's state: object store, loader cache, files, page *)

Definition loc := nat.

Inductive chart :=
  | Scatterplot (x : list Q) (y : list Z)
  | Boxplot (x : list (option string)) (y : list Z)
  | Lineplot (x : list Z) (y : list Pd.num)
  | Countplot (x : list (option string))
  | Barplot (x : list (option string)) (y : list Z) (hue : list (option string)).

(** What a metric displays, before formatting. *)
Inductive metric_value :=
  | MCount (n : nat)
  | MFloat (x : Pd.num)
  | MInt (x : option Z).

(** Elements written to the page, in order.  Narrative elements (titles,
    headers, markdown, info boxes, captions) carry no text: only their
    place in the sequence matters here.  Rendering is outside the model: a
    chart element records the columns handed to seaborn. *)
Inductive element :=
  | StError (msg : string)
  | StText
  | StMetric (label : string) (value : metric_value)
  | StPyplot (fig : chart)
  | StDivider.

Record state := {
  heap : gmap loc frame;
  cache : gmap string loc;
  files : gmap string (list RawRow);
  page : list element;
}.

Definition set_heap (h : gmap loc frame) (σ : state) : state :=
  {| heap := h; cache := cache σ; files := files σ; page := page σ |}.
Definition set_cache (c : gmap string loc) (σ : state) : state :=
  {| heap := heap σ; cache := c; files := files σ; page := page σ |}.
Definition set_page (p : list element) (σ : state) : state :=
  {| heap := heap σ; cache := cache σ; files := files σ; page := p |}.

(** How a statement ends: normally, by an exception, or by [st.stop()]. *)
Inductive outcome (A : Type) :=
  | Normal (a : A)
  | Raised (e : exn)
  | Stopped.
Arguments Normal {A} a.
Arguments Raised {A} e.
Arguments Stopped {A}.

Definition M (A : Type) : Type := state → outcome A * state.

Global Instance M_ret : MRet M := λ A a σ, (Normal a, σ).
Global Instance M_bind : MBind M := λ A B k m σ,
  match m σ with
  | (Normal a, σ') => k a σ'
  | (Raised e, σ') => (Raised e, σ')
  | (Stopped, σ') => (Stopped, σ')
  end.

Definition raise {A} (e : exn) : M A := λ σ, (Raised e, σ).
Definition lift {A} (r : result A) : M A :=
  match r with Ok a => mret a | Raise e => raise e end.

(** [try: body except E: handler], [E] given by [catches]. *)
Definition try_except {A} (body : M A) (catches : exn → bool) (handler : M A) : M A :=
  λ σ, match body σ with
       | (Raised e, σ') => if catches e then handler σ' else (Raised e, σ')
       | r => r
       end.

(** Object store: a new object gets a location no object has. *)
Definition alloc (f : frame) : M loc := λ σ,
  let l := fresh (dom (heap σ)) in (Normal l, set_heap (<[l := f]> (heap σ)) σ).
Definition read (l : loc) : M frame := λ σ, (Normal (heap σ !!! l), σ).
Definition write (l : loc) (f : frame) : M unit := λ σ,
  (Normal (), set_heap (<[l := f]> (heap σ)) σ).

(** Streamlit calls. *)
Definition st_emit (e : element) : M unit := λ σ,
  (Normal (), set_page (page σ ++ [e]) σ).
Definition st_stop {A} : M A := λ σ, (Stopped, σ).

(** [df.groupby(key)[col].mean()]: one mean per distinct key, keys sorted. *)
Definition groupby_mean (keys vals : list Z) : list (Z * Pd.num) :=
  (λ k, (k, Pd.group_mean (Pd.getitem_mask vals ((λ k', (k' =? k)%Z) <$> keys))))
  <$> merge_sort Z.le (remove_dups keys).

(** ** The loader (lines 16-33) *)

Definition read_csv (path : string) : M (list RawRow) := λ σ,
  match files σ !! path with
  | Some raw => (Normal raw, σ)
  | None => (Raised FileNotFoundError, σ)
  end.

Definition load_data_body (path : string) : M loc :=
  raw ← read_csv path;
  alloc {| rows := load_row <$> raw; cnt_cluster := None |}.

(** [@st.cache_data]: on the first call for a path the body runs, its
    value is returned and a pickled snapshot of it is kept (here an object
    of the store that no variable of the script refers to); a later call
    does not run the body and returns a new object unpickled from the
    snapshot.  Nothing is kept when the body raises. *)
Definition cache_data (body : string → M loc) (path : string) : M loc := λ σ,
  match cache σ !! path with
  | Some snapshot => (f ← read snapshot; alloc f) σ
  | None =>
      match body path σ with
      | (Normal l, σ') =>
          let snapshot := fresh (dom (heap σ')) in
          (Normal l,
           set_cache (<[path := snapshot]> (cache σ'))
             (set_heap (<[snapshot := heap σ' !!! l]> (heap σ')) σ'))
      | r => r
      end
  end.

Definition load_data : string → M loc := cache_data load_data_body.

(** ** The script (lines 35-197) *)

(** The sidebar's year choice: ["All"] or a year of the table. *)
Inductive tahun_choice :=
  | All
  | Tahun (y : Z).

Definition musim_options : list string := ["Spring"; "Summer"; "Fall"; "Winter"].

Definition tahun_options (f : frame) : list tahun_choice :=
  All :: (Tahun <$> merge_sort Z.le (remove_dups (column f year))).

Definition cluster_labels : list string := ["Rendah"; "Sedang"; "Tinggi"].

Definition catches_FileNotFoundError (e : exn) : bool :=
  match e with FileNotFoundError => true | _ => false end.

Definition catches_ValueError (e : exn) : bool :=
  match e with ValueError _ => true | _ => false end.

(** [df = df_raw.copy()] *)
Definition copy (l : loc) : M loc := f ← read l; alloc f.

(** [df["cnt_cluster"] = c] *)
Definition setitem_cnt_cluster (df : loc) (c : list (option string)) : M unit :=
  f ← read df; write df {| rows := rows f; cnt_cluster := Some c |}.

(** [df["cnt_cluster"]] *)
Definition getitem_cnt_cluster (df : loc) : M (list (option string)) :=
  f ← read df;
  match cnt_cluster f with
  | Some c => mret c
  | None => raise (KeyError "cnt_cluster")
  end.

(** Lines 52-54. *)
Definition filter_stage (df : loc) (tahun : tahun_choice) (musim : list string) : M loc :=
  df ← match tahun with
       | All => mret df
       | Tahun y =>
           f ← read df;
           alloc (frame_getitem f ((λ v, (v =? y)%Z) <$> column f year))
       end;
  f ← read df;
  alloc (frame_getitem f (Pd.isin musim <$> column f season)).

(** Lines 69-77. *)
Definition metrics_panel (df : loc) : M unit :=
  f ← read df;
  st_emit (StMetric "Total Hari" (MCount (length (rows f))));;
  st_emit (StMetric "Rata-rata Peminjaman / Hari" (MFloat (Pd.mean (column f cnt))));;
  st_emit (StMetric "Maksimum Peminjaman / Hari" (MInt (Pd.max (column f cnt))));;
  st_emit (StMetric "Minimum Peminjaman / Hari" (MInt (Pd.min (column f cnt)))).

(** Lines 84-143: the two scatter plots, the box plot and the monthly trend. *)
Definition visualization_stage (df : loc) : M unit :=
  f ← read df;
  st_emit StText;;
  st_emit StText;;
  st_emit (StPyplot (Scatterplot (column f temp) (column f cnt)));;
  st_emit StText;;
  st_emit (StPyplot (Scatterplot (column f hum) (column f cnt)));;
  st_emit StText;;
  st_emit StDivider;;
  st_emit StText;;
  st_emit (StPyplot (Boxplot (column f workingday_label) (column f cnt)));;
  st_emit StText;;
  st_emit StDivider;;
  st_emit StText;;
  let monthly := groupby_mean (column f month) (column f cnt) in
  st_emit (StPyplot (Lineplot monthly.*1 monthly.*2));;
  st_emit StText;;
  st_emit StDivider.

(** Lines 151-160: quantile binning, equal-width binning on [ValueError]. *)
Definition clustering_stage (df : loc) : M unit :=
  try_except
    (f ← read df;
     c ← lift (Pd.qcut (column f cnt) 3 cluster_labels);
     setitem_cnt_cluster df c)
    catches_ValueError
    (f ← read df;
     c ← lift (Pd.cut (column f cnt) 3 cluster_labels true);
     setitem_cnt_cluster df c).

(** Lines 162-183: the two charts over the cluster column. *)
Definition cluster_charts (df : loc) : M unit :=
  st_emit StText;;
  c ← getitem_cnt_cluster df;
  st_emit (StPyplot (Countplot c));;
  st_emit StText;;
  f ← read df;
  c ← getitem_cnt_cluster df;
  st_emit (StPyplot (Barplot (column f season) (column f cnt) c));;
  st_emit StText;;
  st_emit StDivider.

(** Lines 41-197: everything after the table is loaded, for the user's
    choices [tahun] and [musim]. *)
Definition dashboard (df_raw : loc) (tahun : tahun_choice) (musim : list string) : M unit :=
  df ← copy df_raw;
  st_emit StText;;
  df ← filter_stage df tahun musim;
  st_emit StText;;
  st_emit StText;;
  metrics_panel df;;
  st_emit StDivider;;
  visualization_stage df;;
  st_emit StText;;
  clustering_stage df;;
  cluster_charts df;;
  st_emit StText;;
  st_emit StText.

Definition not_found_message : string :=
  "File 'day.csv' tidak ditemukan. Pastikan file berada di folder yang sama dengan app.py.".

(** Lines 35-39. *)
Definition load_or_stop : M loc :=
  try_except (load_data "day.csv") catches_FileNotFoundError
    (st_emit (StError not_found_message);; st_stop).

(** One run of the script (one user interaction). *)
Definition app (tahun : tahun_choice) (musim : list string) : M unit :=
  df_raw ← load_or_stop;
  dashboard df_raw tahun musim.

(** A fresh process: no object, nothing cached, an empty page. *)
Definition init (fs : gmap string (list RawRow)) : state :=
  {| heap := ∅; cache := ∅; files := fs; page := [] |}.

(** ** Notions used in the statements *)

Global Instance tahun_choice_eq_dec : EqDecision tahun_choice.
Proof. solve_decision. Defined.

(** The filter condition in the specification's words: the year selector
    is "All" or equals the row's year, and the row's season is one of the
    selected seasons. *)
Definition selected (tahun : tahun_choice) (musim : list string) (r : Row) : Prop :=
  (tahun = All ∨ tahun = Tahun (year r)) ∧ season r ∈ (Some <$> musim).

Global Instance selected_dec tahun musim r : Decision (selected tahun musim r).
Proof. unfold selected. apply _. Defined.

(** The lookup tables in the specification's words. *)
Definition season_label (code : Z) : option string :=
  if (code =? 1)%Z then Some "Spring"
  else if (code =? 2)%Z then Some "Summer"
  else if (code =? 3)%Z then Some "Fall"
  else if (code =? 4)%Z then Some "Winter"
  else None.

Definition weather_label (code : Z) : option string :=
  if (code =? 1)%Z then Some "Clear"
  else if (code =? 2)%Z then Some "Mist/Cloudy"
  else if (code =? 3)%Z then Some "Light Rain/Snow"
  else if (code =? 4)%Z then Some "Heavy Rain/Snow"
  else None.

(** Rank of a cluster label: its position in [cluster_labels]. *)
Definition cluster_rank (s : string) : option nat :=
  fst <$> list_find (λ l, l = s) cluster_labels.

Definition is_chart (e : element) : bool :=
  match e with StPyplot _ => true | _ => false end.
Definition is_metric (e : element) : bool :=
  match e with StMetric _ _ => true | _ => false end.

(** Sample tables. *)
Definition mkraw (y m d s w wd c : Z) : RawRow :=
  {| raw_dteday := {| d_year := y; d_month := m; d_day := d |};
     raw_season := s; raw_weathersit := w; raw_workingday := wd;
     raw_temp := 1 # 2; raw_hum := 1 # 2; raw_cnt := c |}.

Definition sample_days : list RawRow :=
  [mkraw 2011 1 1 1 1 0 100; mkraw 2012 6 1 2 1 1 200; mkraw 2012 6 2 7 1 1 300].

Definition sample_files : gmap string (list RawRow) := {[ "day.csv" := sample_days ]}.

(** A table whose only day is a spring day of 2011. *)
Definition spring_files : gmap string (list RawRow) :=
  {[ "day.csv" := [mkraw 2011 1 1 1 1 0 100] ]}.

(** A table of two days with valid codes, one in each year. *)
Definition two_year_files : gmap string (list RawRow) :=
  {[ "day.csv" := [mkraw 2011 1 1 1 1 0 100; mkraw 2012 6 1 2 1 1 200] ]}.

(** The working-day label as the specification words it: one of "Working
    Day" and "Weekend/Holiday", the first for flag 1, the second for
    flag 0. *)
Definition working_day_as_specified (r : RawRow) : Prop :=
  workingday_label (load_row r) ∈ [Some "Working Day"; Some "Weekend/Holiday"] ∧
  (raw_workingday r = 1%Z → workingday_label (load_row r) = Some "Working Day") ∧
  (raw_workingday r = 0%Z → workingday_label (load_row r) = Some "Weekend/Holiday").

(** [keeps h0 m Q]: running [m] changes no object of [h0] and leaves the
    loader cache alone; a value it returns satisfies [Q]. *)
Definition keeps (h0 : gmap loc frame) {A} (m : M A) (Q : A → Prop) : Prop :=
  ∀ σ, h0 ⊆ heap σ →
    h0 ⊆ heap (m σ).2 ∧ cache (m σ).2 = cache σ ∧
    ∀ a, (m σ).1 = Normal a → Q a.

(** The same state with another file system (files may change between
    two runs of the script). *)
Definition set_files (fs : gmap string (list RawRow)) (σ : state) : state :=
  {| heap := heap σ; cache := cache σ; files := fs; page := page σ |}.

(** What a run writes to the page for a view, in the order of the script:
    up to the header of the clustering section (lines 46-148) ... *)
Definition page_before_clustering (view : list Row) : list element :=
  [StText; StText; StText;
   StMetric "Total Hari" (MCount (length view));
   StMetric "Rata-rata Peminjaman / Hari" (MFloat (Pd.mean (cnt <$> view)));
   StMetric "Maksimum Peminjaman / Hari" (MInt (Pd.max (cnt <$> view)));
   StMetric "Minimum Peminjaman / Hari" (MInt (Pd.min (cnt <$> view)));
   StDivider;
   StText; StText;
   StPyplot (Scatterplot (temp <$> view) (cnt <$> view));
   StText;
   StPyplot (Scatterplot (hum <$> view) (cnt <$> view));
   StText; StDivider;
   StText;
   StPyplot (Boxplot (workingday_label <$> view) (cnt <$> view));
   StText; StDivider;
   StText;
   StPyplot (Lineplot (groupby_mean (month <$> view) (cnt <$> view)).*1
                      (groupby_mean (month <$> view) (cnt <$> view)).*2);
   StText; StDivider;
   StText].

(** ... and from the cluster charts to the footer (lines 162-197), for
    the cluster column [c]. *)
Definition page_after_clustering (view : list Row) (c : list (option string))
  : list element :=
  [StText;
   StPyplot (Countplot c);
   StText;
   StPyplot (Barplot (season <$> view) (cnt <$> view) c);
   StText; StDivider;
   StText; StText].

(** A way of adding up a column: a tree of additions over its values
    (left to right, pairwise by blocks, or any other order). *)
Inductive additions :=
  | Leaf (x : Z)
  | Plus (l r : additions).

Fixpoint leaves (t : additions) : list Z :=
  match t with
  | Leaf x => [x]
  | Plus l r => leaves l ++ leaves r
  end.

Fixpoint fsum_tree (t : additions) : Q :=
  match t with
  | Leaf x => F64.of_Z x
  | Plus l r => F64.add (fsum_tree l) (fsum_tree r)
  end.

(** Daily counts in the range of the data: from 0 up to [2^32], in a view
    of fewer than [2^53] rows. *)
Definition counts_in_range (view : list Row) : Prop :=
  Forall (λ r, (0 ≤ cnt r < 2 ^ 32)%Z) view ∧ (Z.of_nat (length view) < 2 ^ 53)%Z.

(** Two days with the largest int64 count. *)
Definition huge_days : list RawRow :=
  [mkraw 2011 1 1 1 1 0 (2 ^ 63 - 1); mkraw 2011 1 2 1 1 0 (2 ^ 63 - 1)].

(** Four days with the counts [2^53], ..., [2^53 + 3]. *)
Definition large_days : list RawRow :=
  [mkraw 2011 1 1 1 1 0 (2 ^ 53); mkraw 2011 1 2 1 1 0 (2 ^ 53 + 1);
   mkraw 2011 1 3 1 1 1 (2 ^ 53 + 2); mkraw 2011 1 4 1 1 1 (2 ^ 53 + 3)].

(** A state whose only object, at location 0, is the table of the given
    lines. *)
Definition table_state (raw : list RawRow) : state :=
  {| heap := {[ 0 := {| rows := load_row <$> raw; cnt_cluster := None |} ]};
     cache := ∅; files := ∅; page := [] |}.

(** [never_stops m]: running [m] never ends in [st.stop()]. *)
Definition never_stops {A} (m : M A) : Prop := ∀ σ, (m σ).1 ≠ Stopped.

Global Instance counts_in_range_dec view : Decision (counts_in_range view).
Proof. unfold counts_in_range. apply _. Defined.

(** * Properties *)

(** ** Binary64 rounding *)

Module F64_facts.
Import F64.
Local Open Scope Q_scope.

Lemma pow2_pos (k : Z) : 0 < pow2 k.
Proof. apply Qpower_0_lt. reflexivity. Qed.

Lemma pow2_plus (a b : Z) : pow2 (a + b) == pow2 a * pow2 b.
Proof. apply Qpower_plus. discriminate. Qed.

Lemma pow2_le (a b : Z) : (a <= b)%Z -> pow2 a <= pow2 b.
Proof. intros H. apply Qpower_le_compat_l; [exact H | discriminate]. Qed.

Lemma pow2_lt (a b : Z) : (a < b)%Z -> pow2 a < pow2 b.
Proof. intros H. apply Qpower_lt_compat_l; [exact H | reflexivity]. Qed.

Lemma pow2_lt_inv (a b : Z) : pow2 a < pow2 b -> (a < b)%Z.
Proof. intros H. eapply Qpower_lt_compat_l_inv; [exact H | reflexivity]. Qed.

Lemma pow2_Z (k : Z) : (0 <= k)%Z -> pow2 k == inject_Z (2 ^ k).
Proof. intros H. unfold pow2. rewrite Zpower_Qpower by exact H. reflexivity. Qed.

Lemma Qnum_pos (q : Q) : 0 < q <-> (0 < Qnum q)%Z.
Proof. unfold Qlt. cbn. rewrite Z.mul_1_r. reflexivity. Qed.

Lemma ilog2_spec (q : Q) :
  0 < q -> pow2 (ilog2 q) <= q /\ q < pow2 (ilog2 q + 1).
Proof.
  intros Hq. destruct q as [a b]. apply Qnum_pos in Hq as Ha. cbn in Ha.
  unfold ilog2. cbn [Qnum Qden].
  set (la := Z.log2 a). set (lb := Z.log2 (Z.pos b)).
  destruct (Z.log2_spec a Ha) as [Ha1 Ha2]. fold la in Ha1, Ha2.
  destruct (Z.log2_spec (Z.pos b) eq_refl) as [Hb1 Hb2]. fold lb in Hb1, Hb2.
  assert (Hla : (0 <= la)%Z) by apply Z.log2_nonneg.
  assert (Hlb : (0 <= lb)%Z) by apply Z.log2_nonneg.
  assert (Hab : (a # b) * inject_Z (Z.pos b) == inject_Z a).
  { rewrite (Qmake_Qdiv a b). field. discriminate. }
  assert (HB : 0 < inject_Z (Z.pos b)) by reflexivity.
  pose proof (pow2_pos (la - lb)) as P0. pose proof (pow2_pos (la - lb - 1)) as P1.
  pose proof (pow2_pos (la - lb + 1)) as P2. pose proof (pow2_pos lb) as PL.
  assert (QA1 : pow2 la <= inject_Z a) by (rewrite pow2_Z by lia; by rewrite <- Zle_Qle).
  assert (QA2 : inject_Z a < pow2 (la + 1))
    by (rewrite pow2_Z by lia; rewrite <- Zlt_Qlt; lia).
  assert (QB1 : pow2 lb <= inject_Z (Z.pos b))
    by (rewrite pow2_Z by lia; by rewrite <- Zle_Qle).
  assert (QB2 : inject_Z (Z.pos b) < pow2 (lb + 1))
    by (rewrite pow2_Z by lia; rewrite <- Zlt_Qlt; lia).
  assert (E1 : pow2 (la - lb + 1) * pow2 lb == pow2 (la + 1))
    by (rewrite <- pow2_plus; f_equiv; lia).
  assert (E2 : pow2 (la - lb - 1) * pow2 (lb + 1) == pow2 la)
    by (rewrite <- pow2_plus; f_equiv; lia).
  pose proof (pow2_pos (lb + 1)) as PL1.
  assert (Hup : (a # b) < pow2 (la - lb + 1)).
  { apply Qnot_le_lt. intros Hge. 
    assert (pow2 (la - lb + 1) * pow2 lb <= (a # b) * inject_Z (Z.pos b)).
    { apply Qmult_le_compat_nonneg; split; try done; by apply Qlt_le_weak. }
    lra. }
  assert (Hlo : pow2 (la - lb - 1) < (a # b)).
  { apply Qnot_le_lt. intros Hge.
    assert ((a # b) * inject_Z (Z.pos b) < pow2 (la - lb - 1) * pow2 (lb + 1)).
    { apply Qmult_le_lt_compat_pos; split; done. }
    lra. }
  destruct (Qle_bool (pow2 (la - lb)) (a # b)) eqn:Hc.
  - apply Qle_bool_iff in Hc. split; done.
  - assert (Hlt : (a # b) < pow2 (la - lb)).
    { apply Qnot_le_lt. intros H. apply Qle_bool_iff in H. congruence. }
    split; [by apply Qlt_le_weak|].
    by replace (la - lb - 1 + 1)%Z with (la - lb)%Z by lia.
Qed.

Lemma ilog2_unique (q : Q) (k : Z) :
  0 < q -> pow2 k <= q -> q < pow2 (k + 1) -> ilog2 q = k.
Proof.
  intros Hq Hlo Hhi. destruct (ilog2_spec q Hq) as [Slo Shi].
  assert (ilog2 q < k + 1)%Z by (apply pow2_lt_inv; lra).
  assert (k < ilog2 q + 1)%Z by (apply pow2_lt_inv; lra).
  lia.
Qed.

Lemma ilog2_mono (x y : Q) : 0 < x -> x <= y -> (ilog2 x <= ilog2 y)%Z.
Proof.
  intros Hx Hxy. destruct (ilog2_spec x Hx) as [Xlo _].
  destruct (ilog2_spec y) as [_ Yhi]; [lra|].
  assert (ilog2 x < ilog2 y + 1)%Z by (apply pow2_lt_inv; lra). lia.
Qed.

Lemma round_half_even_bounds (x : Q) :
  (Qfloor x <= round_half_even x <= Qfloor x + 1)%Z.
Proof.
  unfold round_half_even.
  destruct (x - inject_Z (Qfloor x) ?= 1 # 2); [destruct (Z.even _)| |]; lia.
Qed.

Lemma round_half_even_Z (x : Q) (n : Z) : x == inject_Z n -> round_half_even x = n.
Proof.
  intros Hx. unfold round_half_even.
  assert (Hf : Qfloor x = n) by (rewrite Hx; apply Qfloor_Z).
  rewrite Hf.
  assert (Hc : (x - inject_Z n ?= 1 # 2) = Lt).
  { apply (proj1 (Qlt_alt _ _)). revert Hx. generalize (inject_Z n). intros; lra. }
  by rewrite Hc.
Qed.

Lemma round_half_even_mono (x y : Q) :
  x <= y -> (round_half_even x <= round_half_even y)%Z.
Proof.
  intros Hxy. pose proof (Qfloor_resp_le x y Hxy) as Hf.
  pose proof (round_half_even_bounds x) as Bx.
  pose proof (round_half_even_bounds y) as By.
  destruct (Z.eq_dec (Qfloor x) (Qfloor y)) as [Heq|Hne]; [|lia].
  unfold round_half_even in *. rewrite <- Heq in *.
  set (f := Qfloor x) in *.
  destruct (Qcompare_spec (x - inject_Z f) (1 # 2)) as [E1|L1|G1];
    destruct (Qcompare_spec (y - inject_Z f) (1 # 2)) as [E2|L2|G2];
    try lia; try lra; destruct (Z.even f); lia.
Qed.

Lemma round_half_even_le (x : Q) (n : Z) :
  x <= inject_Z n -> (round_half_even x <= n)%Z.
Proof.
  intros H. pose proof (round_half_even_mono _ _ H) as Hm.
  by rewrite (round_half_even_Z (inject_Z n) n) in Hm by reflexivity.
Qed.

Lemma round_half_even_ge (x : Q) (n : Z) :
  inject_Z n <= x -> (n <= round_half_even x)%Z.
Proof.
  intros H. pose proof (round_half_even_mono _ _ H) as Hm.
  by rewrite (round_half_even_Z (inject_Z n) n) in Hm by reflexivity.
Qed.

Lemma scaled_range (q : Q) :
  0 < q ->
  inject_Z (2 ^ 52) <= q / pow2 (ilog2 q - 52) /\
  q / pow2 (ilog2 q - 52) < inject_Z (2 ^ 53).
Proof.
  intros Hq. destruct (ilog2_spec q Hq) as [Hlo Hhi].
  set (k := ilog2 q) in *. pose proof (pow2_pos (k - 52)) as He.
  assert (E1 : pow2 k == inject_Z (2 ^ 52) * pow2 (k - 52)).
  { rewrite <- pow2_Z by lia. rewrite <- pow2_plus. f_equiv. lia. }
  assert (E2 : pow2 (k + 1) == inject_Z (2 ^ 53) * pow2 (k - 52)).
  { rewrite <- pow2_Z by lia. rewrite <- pow2_plus. f_equiv. lia. }
  split.
  - apply Qle_shift_div_l; [exact He | lra].
  - apply Qlt_shift_div_r; [exact He | lra].
Qed.

Lemma round_pos_range (q : Q) :
  0 < q -> pow2 (ilog2 q) <= round_pos q /\ round_pos q <= pow2 (ilog2 q + 1).
Proof.
  intros Hq. destruct (scaled_range q Hq) as [Hlo Hhi]. unfold round_pos.
  set (k := ilog2 q) in *. pose proof (pow2_pos (k - 52)) as He.
  set (m := round_half_even (q / pow2 (k - 52))).
  assert (Hm1 : (2 ^ 52 <= m)%Z) by by apply round_half_even_ge.
  assert (Hm2 : (m <= 2 ^ 53)%Z) by (apply round_half_even_le; lra).
  assert (E1 : pow2 k == inject_Z (2 ^ 52) * pow2 (k - 52)).
  { rewrite <- pow2_Z by lia. rewrite <- pow2_plus. f_equiv. lia. }
  assert (E2 : pow2 (k + 1) == inject_Z (2 ^ 53) * pow2 (k - 52)).
  { rewrite <- pow2_Z by lia. rewrite <- pow2_plus. f_equiv. lia. }
  rewrite E1, E2. split; apply Qmult_le_compat_r; try lra;
    by rewrite <- Zle_Qle.
Qed.

Lemma round_pos_pos (q : Q) : 0 < q -> 0 < round_pos q.
Proof.
  intros Hq. destruct (round_pos_range q Hq) as [Hlo _].
  pose proof (pow2_pos (ilog2 q)). lra.
Qed.

Lemma round_pos_mono (x y : Q) : 0 < x -> x <= y -> round_pos x <= round_pos y.
Proof.
  intros Hx Hxy. assert (Hy : 0 < y) by lra.
  pose proof (ilog2_mono x y Hx Hxy) as Hk.
  destruct (Z.eq_dec (ilog2 x) (ilog2 y)) as [Heq|Hne].
  - unfold round_pos. rewrite Heq. pose proof (pow2_pos (ilog2 y - 52)) as He.
    apply Qmult_le_compat_r; [|lra]. rewrite <- Zle_Qle.
    apply round_half_even_mono. apply Qmult_le_compat_r; [exact Hxy|].
    apply Qlt_le_weak, Qinv_lt_0_compat, He.
  - destruct (round_pos_range x Hx) as [_ Hhi].
    destruct (round_pos_range y Hy) as [Hlo _].
    pose proof (pow2_le (ilog2 x + 1) (ilog2 y) ltac:(lia)). lra.
Qed.

Lemma round_sign (q : Q) :
  (0 < q /\ round q == round_pos q) \/
  (q == 0 /\ round q == 0) \/
  (q < 0 /\ round q == - round_pos (- q)).
Proof.
  unfold round. destruct q as [[|p|p] d]; cbn [Qnum].
  - right. left. split; reflexivity.
  - left. split; [reflexivity | apply Qred_correct].
  - right. right. split; [reflexivity | apply Qred_correct].
Qed.

(** Rounding is monotone. *)
Lemma round_mono (x y : Q) : x <= y -> round x <= round y.
Proof.
  intros Hxy.
  destruct (round_sign x) as [[Hx Ex]|[[Hx Ex]|[Hx Ex]]];
    destruct (round_sign y) as [[Hy Ey]|[[Hy Ey]|[Hy Ey]]];
    rewrite Ex, Ey; try lra.
  - by apply round_pos_mono.
  - pose proof (round_pos_pos y Hy). lra.
  - pose proof (round_pos_pos (- x) ltac:(lra)).
    pose proof (round_pos_pos y Hy). lra.
  - pose proof (round_pos_pos (- x) ltac:(lra)). lra.
  - apply Qopp_le_compat. apply round_pos_mono; lra.
Qed.

(** Numbers [z * 2^g] with [|z| < 2^53] are representable. *)
Lemma round_pos_exact (z g : Z) :
  (0 < z < 2 ^ 53)%Z -> round_pos (inject_Z z * pow2 g) == inject_Z z * pow2 g.
Proof.
  intros Hz. set (l := Z.log2 z).
  destruct (Z.log2_spec z) as [Hl1 Hl2]; [lia|]. fold l in Hl1, Hl2.
  assert (Hl0 : (0 <= l)%Z) by apply Z.log2_nonneg.
  assert (Hl52 : (l <= 52)%Z).
  { destruct (Z_le_gt_dec l 52) as [|Hgt]; [done|].
    assert (2 ^ 53 <= 2 ^ l)%Z by (apply Z.pow_le_mono_r; lia). lia. }
  pose proof (pow2_pos g) as Pg.
  assert (Hq : 0 < inject_Z z * pow2 g).
  { apply Qmult_lt_0_compat; [|exact Pg]. change 0 with (inject_Z 0).
    rewrite <- Zlt_Qlt. lia. }
  assert (Hk : ilog2 (inject_Z z * pow2 g) = (l + g)%Z).
  { apply ilog2_unique; [exact Hq| |].
    - rewrite pow2_plus. apply Qmult_le_compat_r; [|lra].
      rewrite pow2_Z by lia. by rewrite <- Zle_Qle.
    - replace (l + g + 1)%Z with (l + 1 + g)%Z by lia. rewrite pow2_plus.
      apply Qmult_lt_compat_r; [exact Pg|].
      rewrite pow2_Z by lia. rewrite <- Zlt_Qlt. lia. }
  unfold round_pos. rewrite Hk.
  pose proof (pow2_pos (l + g - 52)) as Pe.
  assert (Eg : pow2 g == pow2 (52 - l) * pow2 (l + g - 52)).
  { rewrite <- pow2_plus. f_equiv. lia. }
  assert (Es : inject_Z z * pow2 g / pow2 (l + g - 52)
               == inject_Z (z * 2 ^ (52 - l))).
  { rewrite inject_Z_mult, <- pow2_Z by lia. rewrite Eg. field. lra. }
  rewrite (round_half_even_Z _ _ Es).
  rewrite inject_Z_mult, <- pow2_Z by lia. rewrite Eg. ring.
Qed.

Lemma round_exact (z g : Z) :
  (Z.abs z < 2 ^ 53)%Z -> round (inject_Z z * pow2 g) == inject_Z z * pow2 g.
Proof.
  intros Hz. pose proof (pow2_pos g) as Pg.
  destruct (round_sign (inject_Z z * pow2 g)) as [[Hq E]|[[Hq E]|[Hq E]]]; rewrite E.
  - apply round_pos_exact.
    assert (0 < inject_Z z) by nra.
    assert (0 < z)%Z by (rewrite Zlt_Qlt; done). lia.
  - lra.
  - assert (Hneg : inject_Z z < 0) by nra.
    assert (z < 0)%Z by (rewrite Zlt_Qlt; done).
    assert (Eo : - (inject_Z z * pow2 g) == inject_Z (- z) * pow2 g)
      by (rewrite inject_Z_opp; ring).
    assert (Hr : round_pos (- (inject_Z z * pow2 g)) == inject_Z (- z) * pow2 g).
    { rewrite <- (round_pos_exact (- z) g) by lia.
      apply Qle_antisym; apply round_pos_mono; lra. }
    rewrite Hr, inject_Z_opp. ring.
Qed.

(** A representable bound of a value bounds its rounding. *)
Lemma round_le (x : Q) (z g : Z) :
  (Z.abs z < 2 ^ 53)%Z -> x <= inject_Z z * pow2 g ->
  round x <= inject_Z z * pow2 g.
Proof.
  intros Hz Hx. pose proof (round_mono _ _ Hx) as Hm.
  by rewrite (round_exact z g Hz) in Hm.
Qed.

Lemma round_ge (x : Q) (z g : Z) :
  (Z.abs z < 2 ^ 53)%Z -> inject_Z z * pow2 g <= x ->
  inject_Z z * pow2 g <= round x.
Proof.
  intros Hz Hx. pose proof (round_mono _ _ Hx) as Hm.
  by rewrite (round_exact z g Hz) in Hm.
Qed.

Lemma round_half_even_proper (x y : Q) :
  x == y -> round_half_even x = round_half_even y.
Proof.
  intros H. apply Z.le_antisymm; apply round_half_even_mono; rewrite H; apply Qle_refl.
Qed.

Lemma ilog2_proper (x y : Q) : 0 < x -> x == y -> ilog2 x = ilog2 y.
Proof.
  intros Hx H. destruct (ilog2_spec y) as [Hlo Hhi]; [by rewrite <- H|].
  apply ilog2_unique; [exact Hx | by rewrite H | by rewrite H].
Qed.

Lemma round_pos_proper (x y : Q) : 0 < x -> x == y -> round_pos x == round_pos y.
Proof.
  intros Hx H. unfold round_pos. rewrite (ilog2_proper x y Hx H).
  rewrite (round_half_even_proper (x / pow2 (ilog2 y - 52)) (y / pow2 (ilog2 y - 52)));
    [reflexivity | by rewrite H].
Qed.

(** Rounding does not depend on the fraction that represents the value. *)
Lemma round_proper (x y : Q) : x == y -> round x = round y.
Proof.
  intros H.
  destruct (round_sign x) as [[Hx _]|[[Hx _]|[Hx _]]].
  - assert (Hy : 0 < y) by by rewrite <- H.
    apply Qnum_pos in Hx as Hx'. apply Qnum_pos in Hy as Hy'.
    unfold round. destruct (Qnum x) eqn:Ex; try lia. destruct (Qnum y) eqn:Ey; try lia.
    apply Qred_complete. by apply round_pos_proper.
  - assert (Hy : y == 0) by by rewrite <- H.
    assert (Qnum x = 0%Z) as Ex. { unfold Qeq in Hx. cbn in Hx. lia. }
    assert (Qnum y = 0%Z) as Ey. { unfold Qeq in Hy. cbn in Hy. lia. }
    unfold round. by rewrite Ex, Ey.
  - assert (Hy : y < 0) by by rewrite <- H.
    assert (Hx' : (Qnum x < 0)%Z). { unfold Qlt in Hx. cbn in Hx. lia. }
    assert (Hy' : (Qnum y < 0)%Z). { unfold Qlt in Hy. cbn in Hy. lia. }
    unfold round. destruct (Qnum x) eqn:Ex; try lia. destruct (Qnum y) eqn:Ey; try lia.
    apply Qred_complete. apply Qopp_comp. apply round_pos_proper; [lra | by rewrite H].
Qed.

Global Instance round_Proper : Proper (Qeq ==> eq) round.
Proof. intros x y H. by apply round_proper. Qed.

Lemma Qred_round (x : Q) : Qred (round x) = round x.
Proof.
  unfold round. destruct (Qnum x); [reflexivity| |]; apply Qred_complete, Qred_correct.
Qed.

(** Integers below [2^53] in absolute value are float64 values. *)
Lemma round_Z (z : Z) : (Z.abs z < 2 ^ 53)%Z -> round (inject_Z z) = inject_Z z.
Proof.
  intros Hz. rewrite <- Qred_round.
  replace (inject_Z z) with (Qred (inject_Z z)) at 2.
  - apply Qred_complete. pose proof (round_exact z 0 Hz) as H.
    assert (E : inject_Z z == inject_Z z * pow2 0) by (change (pow2 0) with 1; ring).
    transitivity (inject_Z z * pow2 0);
      [rewrite (round_proper _ _ E); exact H | symmetry; exact E].
  - apply Qcanon.Qred_identity. cbn. apply Z.gcd_1_r.
Qed.

Lemma of_Z_exact (z : Z) : (Z.abs z < 2 ^ 53)%Z -> of_Z z = inject_Z z.
Proof. apply round_Z. Qed.

Lemma of_Z_mono (x y : Z) : (x <= y)%Z -> of_Z x <= of_Z y.
Proof. intros H. apply round_mono. by rewrite <- Zle_Qle. Qed.

(** A sum, difference or product that is an integer below [2^53] is
    exact. *)
Lemma round_eq_Z (x : Q) (z : Z) :
  x == inject_Z z -> (Z.abs z < 2 ^ 53)%Z -> round x = inject_Z z.
Proof. intros H Hz. rewrite (round_proper _ _ H). by apply round_Z. Qed.

Lemma round_le_Z (x : Q) (z : Z) :
  (Z.abs z < 2 ^ 53)%Z -> x <= inject_Z z -> round x <= inject_Z z.
Proof. intros Hz H. rewrite <- (round_Z z Hz). by apply round_mono. Qed.

Lemma round_ge_Z (x : Q) (z : Z) :
  (Z.abs z < 2 ^ 53)%Z -> inject_Z z <= x -> inject_Z z <= round x.
Proof. intros Hz H. rewrite <- (round_Z z Hz). by apply round_mono. Qed.

Lemma round_0 : round 0 = 0.
Proof. reflexivity. Qed.

Lemma round_nonneg (x : Q) : 0 <= x -> 0 <= round x.
Proof. intros H. apply (round_ge_Z x 0); [done | exact H]. Qed.

End F64_facts.

Import F64_facts.

(** ** The loader's tables *)

(** Decide a chain of [code =? k] tests against a table built by
    [list_to_map]. *)
Ltac table_lookup c :=
  repeat match goal with
         | |- context [(c =? ?k)%Z] =>
             destruct (Z.eqb_spec c k) as [->|?]; [reflexivity|]
         end;
  simpl; rewrite !lookup_insert_ne, lookup_empty by done; reflexivity.

Lemma season_map_lookup (c : Z) : season_map !! c = season_label c.
Proof. unfold season_label, season_map. table_lookup c. Qed.

Lemma weather_map_lookup (c : Z) : weather_map !! c = weather_label c.
Proof. unfold weather_label, weather_map. table_lookup c. Qed.

Lemma season_label_out_of_range (c : Z) :
  ¬ (1 ≤ c ≤ 4)%Z → season_label c = None.
Proof.
  intros Hc. unfold season_label.
  repeat match goal with
         | |- context [(c =? ?k)%Z] => destruct (Z.eqb_spec c k); [lia|]
         end.
  reflexivity.
Qed.

Lemma weather_label_out_of_range (c : Z) :
  ¬ (1 ≤ c ≤ 4)%Z → weather_label c = None.
Proof.
  intros Hc. unfold weather_label.
  repeat match goal with
         | |- context [(c =? ?k)%Z] => destruct (Z.eqb_spec c k); [lia|]
         end.
  reflexivity.
Qed.

(** C7. The loader maps every row's season code 1, 2, 3, 4 to Spring,
    Summer, Fall, Winter and its weather code 1, 2, 3, 4 to Clear,
    Mist/Cloudy, Light Rain/Snow, Heavy Rain/Snow; any other code gives the
    missing value, and the mapping is a total function (it never raises). *)
Theorem load_row_category_mapping (r : RawRow) :
  season (load_row r) = season_label (raw_season r) ∧
  weathersit (load_row r) = weather_label (raw_weathersit r) ∧
  (¬ (1 ≤ raw_season r ≤ 4)%Z → season (load_row r) = None) ∧
  (¬ (1 ≤ raw_weathersit r ≤ 4)%Z → weathersit (load_row r) = None).
Proof.
  cbn [load_row season weathersit].
  rewrite season_map_lookup, weather_map_lookup.
  repeat split;
    [apply season_label_out_of_range | apply weather_label_out_of_range].
Qed.

Lemma load_row_category_mapping_witness :
  season (load_row (mkraw 2012 6 2 7 0 1 300)) = None ∧
  weathersit (load_row (mkraw 2012 6 2 7 0 1 300)) = None.
Proof.
  split; apply (load_row_category_mapping (mkraw 2012 6 2 7 0 1 300)); cbn; lia.
Defined.

(** ** The working-day label *)

(** C8, as stated, fails: the label of a working day (flag 1) is "Hari
    Kerja", which is neither "Working Day" nor "Weekend/Holiday". *)
Lemma working_day_english_label_refuted :
  ¬ working_day_as_specified (mkraw 2011 1 3 1 1 1 1349).
Proof.
  intros [Hin _]. cbn in Hin.
  apply elem_of_cons in Hin as [Heq|Hin]; [discriminate Heq|].
  apply elem_of_cons in Hin as [Heq|Hin]; [discriminate Heq|].
  by apply elem_of_nil in Hin.
Qed.

(** C8 (amended). For a row whose working-day flag is 0 or 1, the loader's
    label is one of exactly "Hari Kerja" and "Akhir Pekan/Hari Libur":
    "Hari Kerja" (working day) for 1, "Akhir Pekan/Hari Libur"
    (weekend/holiday) for 0. *)
Theorem workingday_label_two_valued (r : RawRow) :
  raw_workingday r = 0%Z ∨ raw_workingday r = 1%Z →
  workingday_label (load_row r) ∈ [Some "Hari Kerja"; Some "Akhir Pekan/Hari Libur"] ∧
  (raw_workingday r = 1%Z → workingday_label (load_row r) = Some "Hari Kerja") ∧
  (raw_workingday r = 0%Z → workingday_label (load_row r) = Some "Akhir Pekan/Hari Libur").
Proof.
  intros [H|H]; simpl; rewrite H; (split; [|split]); try discriminate;
    try reflexivity.
  - apply list_elem_of_further, list_elem_of_here.
  - apply list_elem_of_here.
Qed.

Lemma workingday_label_two_valued_witness :
  workingday_label (load_row (mkraw 2011 1 3 1 1 1 1349)) = Some "Hari Kerja".
Proof.
  apply (workingday_label_two_valued (mkraw 2011 1 3 1 1 1 1349)).
  - right. reflexivity.
  - reflexivity.
Defined.

(** ** The filter stage *)

Lemma getitem_mask_fmap {A} (p : A → bool) (l : list A) :
  Pd.getitem_mask l (p <$> l) = filter (λ x, p x) l.
Proof.
  induction l as [|x l IH]; [reflexivity|].
  csimpl. rewrite IH. destruct (p x) eqn:Hp.
  - rewrite filter_cons_True; [reflexivity | rewrite Hp; exact I].
  - rewrite filter_cons_False; [reflexivity | rewrite Hp; intros []].
Qed.

Lemma isin_spec (values : list string) (v : option string) :
  Pd.isin values v ↔ v ∈ (Some <$> values).
Proof.
  destruct v as [s|]; simpl.
  - rewrite bool_decide_spec. split.
    + intros Hs. by apply list_elem_of_fmap_2.
    + intros (s' & Heq & Hs)%list_elem_of_fmap. by injection Heq as ->.
  - split; [done|]. intros (s' & [=] & _)%list_elem_of_fmap.
Qed.

Lemma year_isin_selected tahun musim (l : list Row) :
  filter (λ r, Pd.isin musim (season r))
    (match tahun with
     | All => l
     | Tahun y => filter (λ r, (year r =? y)%Z) l
     end)
  = filter (selected tahun musim) l.
Proof.
  destruct tahun as [|y].
  - apply list_filter_iff. intros r. rewrite isin_spec. unfold selected.
    split; [intros Hs; split; [by left | exact Hs] | by intros [_ Hs]].
  - rewrite list_filter_filter. apply list_filter_iff. intros r.
    rewrite isin_spec. unfold selected. split.
    + intros [Hs Hy]. apply Is_true_true, Z.eqb_eq in Hy. subst. auto.
    + intros [[?|[= ->]] Hs]; [done|]. split; [done|].
      apply Is_true_true, Z.eqb_refl.
Qed.

(** The filter stage always returns: it leaves a new frame whose rows are
    the selected rows of the frame it was given. *)
Lemma filter_stage_run (σ : state) (df : loc) tahun musim :
  ∃ l σ',
    filter_stage df tahun musim σ = (Normal l, σ') ∧
    heap σ !! l = None ∧
    page σ' = page σ ∧
    rows (heap σ' !!! l) = filter (selected tahun musim) (rows (heap σ !!! df)).
Proof.
  unfold filter_stage. destruct tahun as [|y]; cbn.
  - eexists _, _. split; [reflexivity|]. cbn.
    rewrite lookup_total_insert_eq. cbn. unfold column.
    rewrite <- list_fmap_compose, getitem_mask_fmap.
    split; [apply not_elem_of_dom, is_fresh|]. split; [done|].
    apply (year_isin_selected All).
  - eexists _, _. split; [reflexivity|]. cbn.
    rewrite !lookup_total_insert_eq. cbn. unfold column.
    rewrite <- !list_fmap_compose, !getitem_mask_fmap.
    split.
    { eapply lookup_weaken_None;
        [apply not_elem_of_dom, is_fresh | apply insert_subseteq, not_elem_of_dom, is_fresh]. }
    split; [done|].
    apply (year_isin_selected (Tahun y)).
Qed.

(** C1. For every table, year selector and set of selected seasons, the
    filter stage outputs exactly the rows that satisfy (selector is "All"
    or the row's year equals it) and (the row's season is a selected one),
    in the order of the table: the output is the filtered list, a row is in
    it exactly when it is in the table and satisfies the condition, and it
    is a subsequence of the table. *)
Theorem filter_stage_correct (σ : state) (df : loc) tahun musim :
  ∃ l σ',
    filter_stage df tahun musim σ = (Normal l, σ') ∧
    let input := rows (heap σ !!! df) in
    let output := rows (heap σ' !!! l) in
    output = filter (selected tahun musim) input ∧
    (∀ r, r ∈ output ↔ r ∈ input ∧ selected tahun musim r) ∧
    output `sublist_of` input.
Proof.
  destruct (filter_stage_run σ df tahun musim) as (l & σ' & Hrun & _ & _ & Hrows).
  exists l, σ'. split; [exact Hrun|]. cbn. rewrite Hrows.
  split; [reflexivity|]. split.
  - intros r. rewrite list_elem_of_filter. tauto.
  - apply sublist_filter.
Qed.



(** ** A frame rule for the object store *)

Section frame_rule.
Variable h0 : gmap loc frame.

Lemma keeps_ret {A} (a : A) (Q : A → Prop) : Q a → keeps h0 (mret a) Q.
Proof. intros HQ σ Hσ. cbn. repeat split; [done|]. by intros ? [= <-]. Qed.

Lemma keeps_bind {A B} (m : M A) (k : A → M B) (Q : A → Prop) (R : B → Prop) :
  keeps h0 m Q → (∀ a, Q a → keeps h0 (k a) R) → keeps h0 (m ≫= k) R.
Proof.
  intros Hm Hk σ Hσ. destruct (Hm σ Hσ) as (Hh & Hc & HQ).
  unfold mbind, M_bind. destruct (m σ) as [[a|e|] σ1]; cbn in *.
  - destruct (Hk a (HQ a eq_refl) σ1 Hh) as (Hh' & Hc' & HR).
    repeat split; [done | congruence | done].
  - repeat split; [done | done | discriminate].
  - repeat split; [done | done | discriminate].
Qed.

Lemma keeps_weaken {A} (m : M A) (Q Q' : A → Prop) :
  (∀ a, Q a → Q' a) → keeps h0 m Q → keeps h0 m Q'.
Proof.
  intros HQ Hm σ Hσ. destruct (Hm σ Hσ) as (Hh & Hc & Ha).
  repeat split; [done | done | auto].
Qed.

Lemma keeps_alloc (f : frame) : keeps h0 (alloc f) (λ l, h0 !! l = None).
Proof.
  intros σ Hσ. cbn.
  assert (Hfresh : heap σ !! fresh (dom (heap σ)) = None)
    by apply not_elem_of_dom, is_fresh.
  repeat split.
  - etrans; [exact Hσ | by apply insert_subseteq].
  - intros l [= <-]. by eapply lookup_weaken_None.
Qed.

Lemma keeps_read (l : loc) : keeps h0 (read l) (λ _, True).
Proof. intros σ Hσ. cbn. repeat split; done. Qed.

Lemma keeps_write (l : loc) (f : frame) :
  h0 !! l = None → keeps h0 (write l f) (λ _, True).
Proof.
  intros Hl σ Hσ. cbn. repeat split.
  apply map_subseteq_spec. intros i x Hi.
  rewrite lookup_insert_ne by congruence.
  by eapply lookup_weaken.
Qed.

Lemma keeps_emit (e : element) : keeps h0 (st_emit e) (λ _, True).
Proof. intros σ Hσ. cbn. repeat split; done. Qed.

Lemma keeps_raise {A} (e : exn) (Q : A → Prop) : keeps h0 (raise e) Q.
Proof. intros σ Hσ. cbn. repeat split; [done | discriminate]. Qed.

Lemma keeps_lift {A} (r : result A) : keeps h0 (lift r) (λ _, True).
Proof. destruct r; [by apply keeps_ret | apply keeps_raise]. Qed.

Lemma keeps_try_except {A} (body handler : M A) catches (Q : A → Prop) :
  keeps h0 body Q → keeps h0 handler Q →
  keeps h0 (try_except body catches handler) Q.
Proof.
  intros Hb Hh σ Hσ. destruct (Hb σ Hσ) as (Hh1 & Hc1 & HQ1).
  unfold try_except. destruct (body σ) as [[a|e|] σ1]; cbn in *.
  - repeat split; done.
  - destruct (catches e).
    + destruct (Hh σ1 Hh1) as (Hh2 & Hc2 & HQ2).
      repeat split; [done | congruence | done].
    + repeat split; [done | done | discriminate].
  - repeat split; [done | done | discriminate].
Qed.
End frame_rule.

Ltac keeps_step :=
  first
    [ eapply keeps_bind; [ | intros ? ? ]
    | apply keeps_alloc
    | apply keeps_read
    | apply keeps_emit
    | apply keeps_lift
    | apply keeps_raise
    | by apply keeps_ret
    | by apply keeps_write ].

Lemma keeps_copy h0 (l : loc) : keeps h0 (copy l) (λ l', h0 !! l' = None).
Proof. unfold copy. repeat keeps_step. Qed.

Lemma keeps_setitem_cnt_cluster h0 (df : loc) c :
  h0 !! df = None → keeps h0 (setitem_cnt_cluster df c) (λ _, True).
Proof. intros Hdf. unfold setitem_cnt_cluster. repeat keeps_step. Qed.

Lemma keeps_getitem_cnt_cluster h0 (df : loc) :
  keeps h0 (getitem_cnt_cluster df) (λ _, True).
Proof.
  unfold getitem_cnt_cluster. keeps_step; [keeps_step|].
  destruct (cnt_cluster a); keeps_step.
Qed.

Lemma keeps_filter_stage h0 (df : loc) tahun musim :
  keeps h0 (filter_stage df tahun musim) (λ l, h0 !! l = None).
Proof.
  unfold filter_stage. eapply keeps_bind with (Q := λ _, True).
  - destruct tahun as [|y]; [by apply keeps_ret|].
    eapply keeps_weaken; [|eapply keeps_bind; [apply keeps_read|]].
    + done.
    + intros f _. apply keeps_alloc.
  - intros df' _. eapply keeps_bind; [apply keeps_read|].
    intros f _. apply keeps_alloc.
Qed.

Lemma keeps_metrics_panel h0 (df : loc) : keeps h0 (metrics_panel df) (λ _, True).
Proof. unfold metrics_panel. repeat keeps_step. Qed.

Lemma keeps_visualization_stage h0 (df : loc) :
  keeps h0 (visualization_stage df) (λ _, True).
Proof. unfold visualization_stage. repeat keeps_step. Qed.

Lemma keeps_clustering_stage h0 (df : loc) :
  h0 !! df = None → keeps h0 (clustering_stage df) (λ _, True).
Proof.
  intros Hdf. unfold clustering_stage. apply keeps_try_except.
  - keeps_step; [keeps_step|]. keeps_step; [keeps_step|].
    by apply keeps_setitem_cnt_cluster.
  - keeps_step; [keeps_step|]. keeps_step; [keeps_step|].
    by apply keeps_setitem_cnt_cluster.
Qed.

Lemma keeps_cluster_charts h0 (df : loc) : keeps h0 (cluster_charts df) (λ _, True).
Proof.
  unfold cluster_charts.
  repeat first [ apply keeps_getitem_cnt_cluster | keeps_step ].
Qed.

(** Nothing the dashboard does after loading touches an object that
    existed when it started. *)
Lemma keeps_dashboard h0 (df_raw : loc) tahun musim :
  keeps h0 (dashboard df_raw tahun musim) (λ _, True).
Proof.
  unfold dashboard.
  eapply keeps_bind; [apply keeps_copy|]. intros df _.
  eapply keeps_bind; [apply keeps_emit|]. intros _ _.
  eapply keeps_bind; [apply keeps_filter_stage|]. intros df' Hdf'.
  eapply keeps_bind; [apply keeps_emit|]. intros _ _.
  eapply keeps_bind; [apply keeps_emit|]. intros _ _.
  eapply keeps_bind; [apply keeps_metrics_panel|]. intros _ _.
  eapply keeps_bind; [apply keeps_emit|]. intros _ _.
  eapply keeps_bind; [apply keeps_visualization_stage|]. intros _ _.
  eapply keeps_bind; [apply keeps_emit|]. intros _ _.
  eapply keeps_bind; [by apply keeps_clustering_stage|]. intros _ _.
  eapply keeps_bind; [apply keeps_cluster_charts|]. intros _ _.
  eapply keeps_bind; [apply keeps_emit|]. intros _ _. apply keeps_emit.
Qed.

(** ** The loader *)

(** The loader changes no existing object; it adds objects and may fill
    the cache. *)
Lemma load_data_heap (σ σ1 : state) (path : string) (l : loc) :
  load_data path σ = (Normal l, σ1) → heap σ ⊆ heap σ1.
Proof.
  unfold load_data, cache_data, load_data_body, read_csv, mbind, M_bind, read, alloc.
  destruct (cache σ !! path) as [s|].
  - intros [= <- <-]. cbn. apply insert_subseteq, not_elem_of_dom, is_fresh.
  - destruct (files σ !! path) as [raw|]; cbn; [|discriminate].
    intros [= <- <-]. cbn.
    etrans; [|apply insert_subseteq, not_elem_of_dom, is_fresh].
    apply insert_subseteq, not_elem_of_dom, is_fresh.
Qed.

(** In a process that has cached nothing for the path, the loader returns
    a new table holding the mapped lines of the file, and keeps a snapshot
    of it in the cache. *)
Lemma load_data_first (σ : state) (path : string) (raw : list RawRow) :
  cache σ !! path = None → files σ !! path = Some raw →
  ∃ l s σ1, load_data path σ = (Normal l, σ1) ∧
          heap σ !! l = None ∧
          heap σ1 !! l = Some {| rows := load_row <$> raw; cnt_cluster := None |} ∧
          cache σ1 !! path = Some s ∧
          heap σ1 !! s = Some {| rows := load_row <$> raw; cnt_cluster := None |} ∧
          page σ1 = page σ ∧ files σ1 = files σ.
Proof.
  intros Hc Hf.
  unfold load_data, cache_data, load_data_body, read_csv, mbind, M_bind.
  rewrite Hc, Hf. cbn.
  eexists _, _, _. split; [reflexivity|]. cbn.
  set (f := {| rows := load_row <$> raw; cnt_cluster := None |}).
  set (l := fresh (dom (heap σ))).
  set (s := fresh (dom (<[l := f]> (heap σ)))).
  assert (Hs : (<[l := f]> (heap σ)) !! s = None) by apply not_elem_of_dom, is_fresh.
  assert (Hsl : s ≠ l).
  { intros Heq. rewrite Heq, lookup_insert_eq in Hs. discriminate. }
  split; [apply not_elem_of_dom, is_fresh|].
  split; [rewrite lookup_insert_ne by done; apply lookup_insert_eq|].
  split; [apply lookup_insert_eq|].
  split; [|done].
  rewrite lookup_insert_eq. by rewrite lookup_total_insert_eq.
Qed.

Lemma load_or_stop_normal (σ σ1 : state) (l : loc) :
  load_or_stop σ = (Normal l, σ1) → load_data "day.csv" σ = (Normal l, σ1).
Proof.
  unfold load_or_stop, try_except.
  destruct (load_data "day.csv" σ) as [[a|e|] σ0]; [done| |done].
  destruct (catches_FileNotFoundError e); [|done]. cbn. discriminate.
Qed.

(** C6. When [day.csv] is absent (and no table is cached for it), the
    script writes the not-found message to the page and stops: the run ends
    in [Stopped], not in an exception, and the only element added to the
    page is the error message, so no metric and no chart is produced. *)
Theorem missing_file_stops (σ : state) tahun musim :
  cache σ !! "day.csv" = None → files σ !! "day.csv" = None →
  app tahun musim σ = (Stopped, set_page (page σ ++ [StError not_found_message]) σ).
Proof.
  intros Hc Hf.
  unfold app, load_or_stop, try_except, load_data, cache_data,
    load_data_body, read_csv, mbind, M_bind.
  rewrite Hc, Hf. reflexivity.
Qed.

Lemma missing_file_stops_witness :
  app All musim_options (init ∅) =
    (Stopped, set_page [StError not_found_message] (init ∅)).
Proof. apply (missing_file_stops (init ∅) All musim_options); reflexivity. Defined.

(** ** The cached master table *)

(** C9. Whatever the user chooses, a run of the script leaves the table
    returned by the loader as the loader returned it: every object of the
    store after loading, the master table and the cache's snapshot among
    them, is unchanged after the run, and the cache is untouched.
    Filtering and the assignment of the cluster column work on new
    objects. *)
Theorem master_table_unchanged (σ σ1 : state) (df_raw : loc) tahun musim :
  load_data "day.csv" σ = (Normal df_raw, σ1) →
  let σ' := (app tahun musim σ).2 in
  heap σ1 ⊆ heap σ' ∧
  cache σ' = cache σ1 ∧
  ∀ master, heap σ1 !! df_raw = Some master → heap σ' !! df_raw = Some master.
Proof.
  intros Hload. cbn.
  assert (Happ : app tahun musim σ = dashboard df_raw tahun musim σ1).
  { unfold app, load_or_stop, try_except, mbind, M_bind. by rewrite Hload. }
  rewrite Happ.
  destruct (keeps_dashboard (heap σ1) df_raw tahun musim σ1) as (Hh & Hc & _);
    [done|].
  split; [done|]. split; [done|].
  intros master Hm. by eapply lookup_weaken.
Qed.

Lemma master_table_unchanged_witness :
  let σ1 := (load_data "day.csv" (init sample_files)).2 in
  let σ' := (app (Tahun 2012) ["Summer"] (init sample_files)).2 in
  heap σ1 ⊆ heap σ' ∧
  cache σ' = cache σ1 ∧
  ∀ master, heap σ1 !! 0 = Some master → heap σ' !! 0 = Some master.
Proof.
  apply (master_table_unchanged (init sample_files)
           (load_data "day.csv" (init sample_files)).2 0 (Tahun 2012) ["Summer"]).
  vm_compute. reflexivity.
Defined.

(** ** The metrics panel *)

Lemma foldr_max_bounds (x : Z) (t : list Z) :
  (x ≤ foldr Z.max x t)%Z ∧ Forall (λ y, (y ≤ foldr Z.max x t)%Z) t.
Proof.
  induction t as [|y t [IHx IHt]]; cbn; [split; [lia | constructor]|].
  split; [lia|]. constructor; [lia|].
  eapply Forall_impl; [exact IHt|]. cbn. intros; lia.
Qed.

Lemma foldr_min_bounds (x : Z) (t : list Z) :
  (foldr Z.min x t ≤ x)%Z ∧ Forall (λ y, (foldr Z.min x t ≤ y)%Z) t.
Proof.
  induction t as [|y t [IHx IHt]]; cbn; [split; [lia | constructor]|].
  split; [lia|]. constructor; [lia|].
  eapply Forall_impl; [exact IHt|]. cbn. intros; lia.
Qed.

Lemma max_upper_bound (xs : list Z) (mx : Z) :
  Pd.max xs = Some mx → Forall (λ y, (y ≤ mx)%Z) xs.
Proof.
  destruct xs as [|x t]; [discriminate|]. intros [= <-].
  destruct (foldr_max_bounds x t). by constructor.
Qed.

Lemma min_lower_bound (xs : list Z) (mn : Z) :
  Pd.min xs = Some mn → Forall (λ y, (mn ≤ y)%Z) xs.
Proof.
  destruct xs as [|x t]; [discriminate|]. intros [= <-].
  destruct (foldr_min_bounds x t). by constructor.
Qed.

Lemma sum_bounds (lo hi : Z) (xs : list Z) :
  Forall (λ y, (lo ≤ y ≤ hi)%Z) xs →
  (Z.of_nat (length xs) * lo ≤ Pd.sum xs ≤ Z.of_nat (length xs) * hi)%Z.
Proof.
  induction 1 as [|y xs Hy _ IH]; cbn [Pd.sum foldr length]; [lia|].
  unfold Pd.sum in IH. lia.
Qed.

Lemma min_in (xs : list Z) (mn : Z) : Pd.min xs = Some mn → mn ∈ xs.
Proof.
  destruct xs as [|x t]; [discriminate|]. intros [= <-].
  induction t as [|y t IH]; cbn; [apply list_elem_of_here|].
  destruct (Z.min_spec y (foldr Z.min x t)) as [[_ ->]|[_ ->]].
  - apply list_elem_of_further, list_elem_of_here.
  - apply elem_of_cons in IH as [->|IH];
      [apply list_elem_of_here | by do 2 apply list_elem_of_further].
Qed.

Lemma max_in (xs : list Z) (mx : Z) : Pd.max xs = Some mx → mx ∈ xs.
Proof.
  destruct xs as [|x t]; [discriminate|]. intros [= <-].
  induction t as [|y t IH]; cbn; [apply list_elem_of_here|].
  destruct (Z.max_spec y (foldr Z.max x t)) as [[_ ->]|[_ ->]].
  - apply elem_of_cons in IH as [->|IH];
      [apply list_elem_of_here | by do 2 apply list_elem_of_further].
  - apply list_elem_of_further, list_elem_of_here.
Qed.

(** *** Exact sums *)

Lemma sum_cons (x : Z) (xs : list Z) : Pd.sum (x :: xs) = (x + Pd.sum xs)%Z.
Proof. reflexivity. Qed.

Lemma sum_abs_nonneg (xs : list Z) : (0 ≤ Pd.sum (Z.abs <$> xs))%Z.
Proof.
  induction xs as [|z xs IH]; [done|]. rewrite fmap_cons, sum_cons. lia.
Qed.

Lemma abs_le_sum_abs (xs : list Z) (x : Z) :
  x ∈ xs → (Z.abs x ≤ Pd.sum (Z.abs <$> xs))%Z.
Proof.
  induction xs as [|y xs IH]; [by intros ?%elem_of_nil|].
  pose proof (sum_abs_nonneg xs). rewrite fmap_cons, sum_cons.
  intros [->|Hx]%elem_of_cons; [lia|]. specialize (IH Hx). lia.
Qed.

Lemma abs_sum_le (xs : list Z) : (Z.abs (Pd.sum xs) ≤ Pd.sum (Z.abs <$> xs))%Z.
Proof.
  induction xs as [|z xs IH]; [done|]. rewrite fmap_cons, !sum_cons. lia.
Qed.

Lemma add_exact (a b : Z) :
  (Z.abs (a + b) < 2 ^ 53)%Z →
  F64.add (inject_Z a) (inject_Z b) = inject_Z (a + b).
Proof. intros H. apply round_eq_Z; [by rewrite inject_Z_plus | exact H]. Qed.

Lemma sub_exact (a b : Z) :
  (Z.abs (a - b) < 2 ^ 53)%Z →
  F64.sub (inject_Z a) (inject_Z b) = inject_Z (a - b).
Proof.
  intros H. apply round_eq_Z; [|exact H].
  unfold Z.sub. by rewrite inject_Z_plus, inject_Z_opp.
Qed.

(** Integers whose absolute values add up to less than [2^53] are added
    without rounding. *)
Lemma fsum_acc (xs : list Z) (a : Z) :
  (Z.abs a + Pd.sum (Z.abs <$> xs) < 2 ^ 53)%Z →
  foldl F64.add (inject_Z a) (F64.of_Z <$> xs) = inject_Z (a + Pd.sum xs).
Proof.
  revert a. induction xs as [|x xs IH]; intros a Ha.
  - cbn. by rewrite Z.add_0_r.
  - rewrite fmap_cons, sum_cons in Ha. pose proof (sum_abs_nonneg xs).
    rewrite fmap_cons, sum_cons. cbn [foldl].
    rewrite of_Z_exact by lia. rewrite add_exact by lia.
    rewrite IH by lia. f_equal. lia.
Qed.

Lemma fsum_exact (xs : list Z) :
  (Pd.sum (Z.abs <$> xs) < 2 ^ 53)%Z →
  Pd.fsum (F64.of_Z <$> xs) = inject_Z (Pd.sum xs).
Proof. intros H. unfold Pd.fsum. change 0%Q with (inject_Z 0). by rewrite fsum_acc. Qed.

Lemma sum_app (xs ys : list Z) : Pd.sum (xs ++ ys) = (Pd.sum xs + Pd.sum ys)%Z.
Proof.
  induction xs as [|x xs IH]; [done|]. rewrite <- app_comm_cons, !sum_cons. lia.
Qed.

Lemma sum_Permutation (xs ys : list Z) : xs ≡ₚ ys → Pd.sum xs = Pd.sum ys.
Proof. induction 1; rewrite ?sum_cons; lia. Qed.

Lemma fsum_tree_exact (t : additions) :
  (Pd.sum (Z.abs <$> leaves t) < 2 ^ 53)%Z →
  fsum_tree t = inject_Z (Pd.sum (leaves t)).
Proof.
  induction t as [x|l IHl r IHr]; cbn [leaves fsum_tree]; intros H.
  - rewrite fmap_cons, sum_cons in H. rewrite sum_cons. cbn in H |- *.
    rewrite Z.add_0_r in *. by apply of_Z_exact.
  - rewrite fmap_app, sum_app in H.
    pose proof (sum_abs_nonneg (leaves l)). pose proof (sum_abs_nonneg (leaves r)).
    pose proof (abs_sum_le (leaves l)). pose proof (abs_sum_le (leaves r)).
    rewrite IHl, IHr by lia. rewrite sum_app. apply add_exact. lia.
Qed.

(** Under the same bound the order of the additions does not matter: any
    way of adding the values up, as a tree of additions over a permutation
    of the column, gives the sum the left-to-right order gives. *)
Lemma fsum_order_irrelevant (xs : list Z) (t : additions) :
  leaves t ≡ₚ xs → (Pd.sum (Z.abs <$> xs) < 2 ^ 53)%Z →
  fsum_tree t = Pd.fsum (F64.of_Z <$> xs).
Proof.
  intros Hp H. rewrite fsum_exact by exact H.
  rewrite fsum_tree_exact.
  - f_equal. by apply sum_Permutation.
  - erewrite sum_Permutation; [exact H|]. by apply fmap_Permutation.
Qed.

(** *** The mean *)

Lemma div_between (s n lo hi : Z) :
  (0 < n)%Z → (n * lo ≤ s ≤ n * hi)%Z →
  (inject_Z lo <= inject_Z s / inject_Z n)%Q ∧ (inject_Z s / inject_Z n <= inject_Z hi)%Q.
Proof.
  intros Hn [Hlo Hhi].
  assert (Hq : (0 < inject_Z n)%Q).
  { change 0%Q with (inject_Z 0). rewrite <- Zlt_Qlt. lia. }
  split.
  - apply Qle_shift_div_l; [exact Hq|]. rewrite <- inject_Z_mult, <- Zle_Qle. lia.
  - apply Qle_shift_div_r; [exact Hq|]. rewrite <- inject_Z_mult, <- Zle_Qle. lia.
Qed.

(** A quotient of exact operands, rounded, stays within representable
    integer bounds of the operands' quotient. *)
Lemma div_exact_between (s n lo hi : Z) :
  (0 < n)%Z → (n * lo ≤ s ≤ n * hi)%Z →
  (Z.abs lo < 2 ^ 53)%Z → (Z.abs hi < 2 ^ 53)%Z →
  (inject_Z lo <= F64.div (inject_Z s) (inject_Z n))%Q ∧
  (F64.div (inject_Z s) (inject_Z n) <= inject_Z hi)%Q.
Proof.
  intros Hn Hs Hlo Hhi. destruct (div_between s n lo hi Hn Hs).
  split; [by apply round_ge_Z | by apply round_le_Z].
Qed.

(** On a non-empty column whose absolute values add up to less than
    [2^53], and which has fewer than [2^53] entries, the mean is the
    rounded quotient of the exact sum by the length, and it lies between
    the minimum and the maximum. *)
Lemma mean_between_min_max (xs : list Z) :
  xs ≠ [] →
  (Pd.sum (Z.abs <$> xs) < 2 ^ 53)%Z → (Z.of_nat (length xs) < 2 ^ 53)%Z →
  ∃ mn me mx,
    Pd.min xs = Some mn ∧ Pd.mean xs = Pd.Num me ∧ Pd.max xs = Some mx ∧
    me = F64.div (inject_Z (Pd.sum xs)) (inject_Z (Z.of_nat (length xs))) ∧
    (inject_Z mn <= me)%Q ∧ (me <= inject_Z mx)%Q.
Proof.
  intros Hne Hsum Hlen. destruct xs as [|x t] eqn:Hxs; [done|]. rewrite <- Hxs in *.
  assert (Hmin : Pd.min xs = Some (foldr Z.min x t)) by by subst.
  assert (Hmax : Pd.max xs = Some (foldr Z.max x t)) by by subst.
  assert (Hmean : Pd.mean xs =
                  Pd.Num (F64.div (inject_Z (Pd.sum xs)) (inject_Z (Z.of_nat (length xs))))).
  { rewrite Hxs at 1. unfold Pd.mean. rewrite <- Hxs.
    rewrite fsum_exact by exact Hsum. rewrite of_Z_exact by lia. reflexivity. }
  set (mn := foldr Z.min x t) in *. set (mx := foldr Z.max x t) in *.
  assert (Hall : Forall (λ y, (mn ≤ y ≤ mx)%Z) xs).
  { apply Forall_and. split; [by apply min_lower_bound | by apply max_upper_bound]. }
  destruct (sum_bounds mn mx xs Hall) as [Hlo Hhi].
  pose proof (abs_le_sum_abs xs mn (min_in _ _ Hmin)).
  pose proof (abs_le_sum_abs xs mx (max_in _ _ Hmax)).
  assert (Hn : (0 < Z.of_nat (length xs))%Z) by (rewrite Hxs; cbn [length]; lia).
  destruct (div_exact_between (Pd.sum xs) (Z.of_nat (length xs)) mn mx) as [? ?];
    [lia | lia | lia | lia |].
  exists mn, (F64.div (inject_Z (Pd.sum xs)) (inject_Z (Z.of_nat (length xs)))), mx.
  repeat split; done.
Qed.

Lemma min_max_exist (xs : list Z) :
  xs ≠ [] →
  ∃ mn mx, Pd.min xs = Some mn ∧ Pd.max xs = Some mx ∧
           Forall (λ y, (mn ≤ y ≤ mx)%Z) xs.
Proof.
  intros Hne. destruct xs as [|x t] eqn:Hxs; [done|]. rewrite <- Hxs.
  assert (Hmin : Pd.min xs = Some (foldr Z.min x t)) by by subst.
  assert (Hmax : Pd.max xs = Some (foldr Z.max x t)) by by subst.
  eexists _, _. split; [exact Hmin|]. split; [exact Hmax|].
  apply Forall_and. split; [by apply min_lower_bound | by apply max_upper_bound].
Qed.

(** C5, as stated, fails.  On a view of two days that both have the count
    [2^63 - 1] (the largest int64), the float64 sum of the two counts is
    [2^64] and the panel's mean is [2^63]: larger than the maximum it
    shows, [2^63 - 1]. *)
Lemma mean_above_maximum_refuted :
  let σ := table_state huge_days in
  rows (heap σ !!! 0) ≠ [] ∧
  page (metrics_panel 0 σ).2 =
    [StMetric "Total Hari" (MCount 2);
     StMetric "Rata-rata Peminjaman / Hari" (MFloat (Pd.Num (inject_Z (2 ^ 63))));
     StMetric "Maksimum Peminjaman / Hari" (MInt (Some (2 ^ 63 - 1)%Z));
     StMetric "Minimum Peminjaman / Hari" (MInt (Some (2 ^ 63 - 1)%Z))] ∧
  ¬ (inject_Z (2 ^ 63) <= inject_Z (2 ^ 63 - 1))%Q.
Proof.
  cbn zeta. split; [|split].
  - vm_compute. discriminate.
  - vm_compute. reflexivity.
  - intros H. apply Qle_bool_iff in H. vm_compute in H. discriminate.
Qed.

(** C5 (amended).  The panel shows the number of rows of the view and the
    mean, maximum and minimum of its [cnt] column.  On a non-empty view of
    fewer than [2^53] rows whose counts add up, in absolute value, to less
    than [2^53], minimum <= mean <= maximum; on an empty view the count is
    0, the three other aggregates are missing values, and the panel still
    completes. *)
Theorem metrics_panel_aggregates (σ : state) (df : loc) :
  let view := rows (heap σ !!! df) in
  let total := column (heap σ !!! df) cnt in
  metrics_panel df σ =
    (Normal (),
     set_page (page σ ++
       [StMetric "Total Hari" (MCount (length view));
        StMetric "Rata-rata Peminjaman / Hari" (MFloat (Pd.mean total));
        StMetric "Maksimum Peminjaman / Hari" (MInt (Pd.max total));
        StMetric "Minimum Peminjaman / Hari" (MInt (Pd.min total))]) σ) ∧
  (view ≠ [] →
   (Pd.sum (Z.abs <$> total) < 2 ^ 53)%Z → (Z.of_nat (length view) < 2 ^ 53)%Z →
   ∃ mn me mx,
     Pd.min total = Some mn ∧ Pd.mean total = Pd.Num me ∧ Pd.max total = Some mx ∧
     (inject_Z mn <= me)%Q ∧ (me <= inject_Z mx)%Q) ∧
  (view = [] →
   length view = 0 ∧ Pd.mean total = Pd.NaN ∧ Pd.max total = None ∧ Pd.min total = None).
Proof.
  cbn zeta. split; [|split].
  - unfold metrics_panel, mbind, M_bind, read, st_emit, set_page. cbn.
    by rewrite <- !app_assoc.
  - intros Hne Hsum Hlen.
    destruct (mean_between_min_max (column (heap σ !!! df) cnt))
      as (mn & me & mx & ? & ? & ? & _ & ? & ?).
    { unfold column. intros Hnil%fmap_nil_inv. done. }
    { exact Hsum. }
    { unfold column. by rewrite length_fmap. }
    by exists mn, me, mx.
  - intros Hnil. unfold column. rewrite Hnil. done.
Qed.

Lemma metrics_panel_aggregates_witness :
  let σ := (load_data "day.csv" (init sample_files)).2 in
  let total := column (heap σ !!! 0) cnt in
  ∃ mn me mx,
    Pd.min total = Some mn ∧ Pd.mean total = Pd.Num me ∧ Pd.max total = Some mx ∧
    (inject_Z mn <= me)%Q ∧ (me <= inject_Z mx)%Q.
Proof.
  apply (metrics_panel_aggregates (load_data "day.csv" (init sample_files)).2 0).
  - vm_compute. discriminate.
  - vm_compute. reflexivity.
  - vm_compute. reflexivity.
Defined.

(** *** Group means *)

(** Under the bound of [fsum_acc] the compensated sum of [group_mean] is
    the exact sum, and its compensation term stays 0. *)
Lemma kahan_acc (xs : list Z) (a : Z) :
  (Z.abs a + Pd.sum (Z.abs <$> xs) < 2 ^ 53)%Z →
  foldl Pd.kahan_step (inject_Z a, 0%Q) (F64.of_Z <$> xs)
  = (inject_Z (a + Pd.sum xs), 0%Q).
Proof.
  revert a. induction xs as [|x xs IH]; intros a Ha.
  - cbn. by rewrite Z.add_0_r.
  - rewrite fmap_cons, sum_cons in Ha. pose proof (sum_abs_nonneg xs).
    rewrite fmap_cons, sum_cons. cbn [foldl Pd.kahan_step].
    rewrite of_Z_exact by lia.
    assert (Hy : F64.sub (inject_Z x) 0 = inject_Z x)
      by (apply round_eq_Z; [ring | lia]).
    rewrite Hy. rewrite add_exact by lia.
    rewrite (sub_exact (a + x) a) by lia.
    rewrite (sub_exact (a + x - a) x) by lia.
    replace (a + x - a - x)%Z with 0%Z by lia. change (inject_Z 0) with 0%Q.
    rewrite IH by lia. do 2 f_equal. lia.
Qed.

(** So a group's mean is the mean of its values. *)
Lemma group_mean_mean (xs : list Z) :
  (Pd.sum (Z.abs <$> xs) < 2 ^ 53)%Z → Pd.group_mean xs = Pd.mean xs.
Proof.
  intros H. destruct xs as [|x t] eqn:Hxs; [reflexivity|]. rewrite <- Hxs in *.
  rewrite Hxs at 1 2. unfold Pd.group_mean, Pd.mean. rewrite <- Hxs.
  change (0%Q, 0%Q) with (inject_Z 0, 0%Q). rewrite kahan_acc by exact H.
  by rewrite fsum_exact.
Qed.

(** ** Binning *)

Lemma num_lt_spec (b v : Q) : Pd.num_lt (Pd.Num b) v = true ↔ (b < v)%Q.
Proof.
  cbn. rewrite negb_true_iff, <- not_true_iff_false, Qle_bool_iff.
  split; [apply Qnot_le_lt | apply Qlt_not_le].
Qed.

Lemma num_lt_mono (b : Pd.num) (v1 v2 : Q) :
  (v1 <= v2)%Q → Pd.num_lt b v1 = true → Pd.num_lt b v2 = true.
Proof.
  destruct b as [|b]; [done|]. rewrite !num_lt_spec. intros ? ?.
  by eapply Qlt_le_trans.
Qed.

(** The insertion point grows with the value. *)
Lemma searchsorted_left_mono (bins : list Pd.num) (v1 v2 : Q) :
  (v1 <= v2)%Q → Pd.searchsorted_left bins v1 ≤ Pd.searchsorted_left bins v2.
Proof.
  intros Hv. induction bins as [|b bins IH]; cbn; [lia|].
  destruct (Pd.num_lt b v1) eqn:H1; [|lia].
  rewrite (num_lt_mono b v1 v2 Hv H1). lia.
Qed.

(** The insertion point is at most the position of any edge the value does
    not exceed. *)
Lemma searchsorted_left_le (bins : list Pd.num) (v b : Q) (i : nat) :
  bins !! i = Some (Pd.Num b) → (v <= b)%Q → Pd.searchsorted_left bins v ≤ i.
Proof.
  revert i. induction bins as [|b' bins IH]; intros i Hi Hv; [done|].
  cbn. destruct i as [|i]; cbn in Hi.
  - injection Hi as ->.
    destruct (Pd.num_lt (Pd.Num b) v) eqn:Hlt; [|lia].
    apply num_lt_spec in Hlt. by apply Qlt_not_le in Hlt.
  - destruct (Pd.num_lt b' v); [|lia]. specialize (IH i Hi Hv). lia.
Qed.

Lemma inject_Z_lt (x y : Z) : (x < y)%Z → (inject_Z x < inject_Z y)%Q.
Proof. by rewrite <- Zlt_Qlt. Qed.

Lemma inject_Z_le (x y : Z) : (x ≤ y)%Z → (inject_Z x <= inject_Z y)%Q.
Proof. by rewrite <- Zle_Qle. Qed.

Lemma Qeq_bool_false_neq (p q : Q) : Qeq_bool p q = false → ¬ (p == q)%Q.
Proof. intros H Heq. apply Qeq_bool_iff in Heq. congruence. Qed.

(** Monotonicity of the bin index, for any edges: a smaller count never
    falls in a later bin. *)
Lemma bin_index_mono (bins : list Pd.num) (il : bool) (v1 v2 : Z) :
  (v1 < v2)%Z → Pd.bin_index bins il v1 ≤ Pd.bin_index bins il v2.
Proof.
  intros Hv.
  assert (Hq : (F64.of_Z v1 <= F64.of_Z v2)%Q) by (apply of_Z_mono; lia).
  pose proof (searchsorted_left_mono bins _ _ Hq) as Hss.
  unfold Pd.bin_index. destruct il; cbn [andb]; [|exact Hss].
  destruct bins as [|[|b0] bins]; cbn [head default from_option id Pd.num_eqb];
    try exact Hss.
  destruct (Qeq_bool (F64.of_Z v1) b0) eqn:E1, (Qeq_bool (F64.of_Z v2) b0) eqn:E2;
    cbv iota; try exact Hss.
  - lia.
  - apply Qeq_bool_iff in E1. apply Qeq_bool_false_neq in E2.
    cbn [Pd.searchsorted_left].
    assert (Hlt : Pd.num_lt (Pd.Num b0) (F64.of_Z v2) = true).
    { apply num_lt_spec. destruct (Qlt_le_dec b0 (F64.of_Z v2)) as [?|Hle]; [done|].
      exfalso. apply E2. apply Qle_antisym; [exact Hle|]. by rewrite <- E1. }
    rewrite Hlt. lia.
  - apply Qeq_bool_iff in E2. cbn [Pd.searchsorted_left].
    assert (Hlt : Pd.num_lt (Pd.Num b0) (F64.of_Z v1) = false).
    { apply not_true_iff_false. rewrite num_lt_spec, <- E2. by apply Qle_not_lt. }
    rewrite Hlt. lia.
Qed.

(** A value between the first edge and the edge at position [i] gets an
    index between 1 and [i] when the lowest edge is included. *)
Lemma bin_index_range (b0 b : Q) (rest : list Pd.num) (i : nat) (v : Z) :
  (b0 <= F64.of_Z v)%Q → (Pd.Num b0 :: rest) !! i = Some (Pd.Num b) →
  (F64.of_Z v <= b)%Q → 1 ≤ i →
  1 ≤ Pd.bin_index (Pd.Num b0 :: rest) true v ≤ i.
Proof.
  intros Hlo Hi Hhi Hi1. unfold Pd.bin_index.
  cbn [andb head default from_option id Pd.num_eqb].
  destruct (Qeq_bool (F64.of_Z v) b0) eqn:E; cbv iota; [lia|].
  split; [|by eapply searchsorted_left_le].
  cbn [Pd.searchsorted_left].
  assert (Hlt : Pd.num_lt (Pd.Num b0) (F64.of_Z v) = true).
  { apply num_lt_spec. apply Qle_lteq in Hlo as [Hlt|Heq]; [done|].
    symmetry in Heq. apply Qeq_bool_iff in Heq. congruence. }
  rewrite Hlt. lia.
Qed.

(** With four edges and the three labels, an index between 1 and 3 names
    the label of that rank. *)
Lemma bin_label_rank (bins : list Pd.num) (v : Z) :
  length bins = 4 → 1 ≤ Pd.bin_index bins true v ≤ 3 →
  ∃ s, Pd.bin_label bins cluster_labels true v = Some s ∧
       s ∈ cluster_labels ∧
       cluster_rank s = Some (Pd.bin_index bins true v - 1).
Proof.
  intros Hlen Hidx. unfold Pd.bin_label. rewrite Hlen.
  destruct (Pd.bin_index bins true v) as [|[|[|[|n]]]]; try lia; cbn;
    eexists; (split; [reflexivity|]); (split; [|reflexivity]);
    repeat first [ apply list_elem_of_here | apply list_elem_of_further ].
Qed.

Lemma bins_to_cuts_Ok (x : list Z) bins labels il c :
  Pd.bins_to_cuts x bins labels il = Ok c → c = Pd.bin_label bins labels il <$> x.
Proof. unfold Pd.bins_to_cuts. repeat case_match; congruence. Qed.

Lemma bins_to_cuts_Raise (x : list Z) bins labels il e :
  Pd.bins_to_cuts x bins labels il = Raise e → catches_ValueError e = true.
Proof. unfold Pd.bins_to_cuts. repeat case_match; by intros [= <-]. Qed.

Lemma Qlt_Qeq_bool_false (p q : Q) : (p < q)%Q → Qeq_bool p q = false.
Proof.
  intros Hlt. apply not_true_iff_false. rewrite Qeq_bool_iff. intros Heq.
  rewrite Heq in Hlt. by apply Qlt_irrefl in Hlt.
Qed.

(** Four strictly increasing edges, with the three labels, are accepted. *)
Lemma bins_to_cuts_increasing (x : list Z) (b0 b1 b2 b3 : Q) il :
  (b0 < b1)%Q → (b1 < b2)%Q → (b2 < b3)%Q →
  Pd.bins_to_cuts x [Pd.Num b0; Pd.Num b1; Pd.Num b2; Pd.Num b3] cluster_labels il
  = Ok (Pd.bin_label [Pd.Num b0; Pd.Num b1; Pd.Num b2; Pd.Num b3] cluster_labels il <$> x).
Proof.
  intros H01 H12 H23.
  assert (H02 : (b0 < b2)%Q) by by eapply Qlt_trans.
  assert (H13 : (b1 < b3)%Q) by by eapply Qlt_trans.
  assert (H03 : (b0 < b3)%Q) by by eapply Qlt_trans.
  unfold Pd.bins_to_cuts. cbn [Pd.unique Pd.num_eqb List.filter negb].
  rewrite (Qlt_Qeq_bool_false _ _ H23). cbn [Pd.unique Pd.num_eqb List.filter negb].
  rewrite (Qlt_Qeq_bool_false _ _ H12), (Qlt_Qeq_bool_false _ _ H13).
  cbn [Pd.unique Pd.num_eqb List.filter negb].
  rewrite (Qlt_Qeq_bool_false _ _ H01), (Qlt_Qeq_bool_false _ _ H02),
    (Qlt_Qeq_bool_false _ _ H03).
  reflexivity.
Qed.

(** *** Interpolation *)

Lemma int64_small (z : Z) : (- 2 ^ 63 ≤ z < 2 ^ 63)%Z → Pd.int64 z = z.
Proof. intros H. unfold Pd.int64. rewrite Z.mod_small; lia. Qed.

Lemma mul_0_r (x : Q) : F64.mul x 0 = 0%Q.
Proof. unfold F64.mul. rewrite (round_proper (x * 0) 0); [reflexivity | ring]. Qed.

Lemma mul_0_l (x : Q) : F64.mul 0 x = 0%Q.
Proof. unfold F64.mul. rewrite (round_proper (0 * x) 0); [reflexivity | ring]. Qed.

Lemma Qmult_le_mono_nonneg_l (d r r' : Q) :
  (0 <= d)%Q → (r <= r')%Q → (d * r <= d * r')%Q.
Proof. intros. nra. Qed.

Lemma Qmult_le_l1 (d r : Q) : (0 <= d)%Q → (r <= 1)%Q → (d * r <= d)%Q.
Proof. intros. nra. Qed.

(** Interpolating between an entry and itself gives the entry. *)
Lemma lerp_same (a : Z) (t : Q) :
  (Z.abs a < 2 ^ 53)%Z → Pd.lerp a a t = inject_Z a.
Proof.
  intros Ha. unfold Pd.lerp. rewrite Z.sub_diag.
  change (F64.of_Z (Pd.int64 0)) with 0%Q. rewrite !mul_0_l.
  rewrite of_Z_exact by exact Ha.
  destruct (Qle_bool (1 # 2) t).
  - apply round_eq_Z; [ring | exact Ha].
  - apply round_eq_Z; [ring | exact Ha].
Qed.

(** At weight 0 the interpolation is the left entry. *)
Lemma lerp_0 (a b : Z) : (Z.abs a < 2 ^ 53)%Z → Pd.lerp a b 0 = inject_Z a.
Proof.
  intros Ha. unfold Pd.lerp. change (Qle_bool (1 # 2) 0) with false. cbv iota.
  rewrite mul_0_r, of_Z_exact by exact Ha. apply round_eq_Z; [ring | exact Ha].
Qed.

(** Between two entries [a <= b], at a weight in [0, 1], the interpolation
    stays between the entries ... *)
Lemma lerp_bounds (a b : Z) (t : Q) :
  (a ≤ b)%Z → (Z.abs a < 2 ^ 52)%Z → (Z.abs b < 2 ^ 52)%Z →
  (0 <= t)%Q → (t <= 1)%Q →
  (inject_Z a <= Pd.lerp a b t)%Q ∧ (Pd.lerp a b t <= inject_Z b)%Q.
Proof.
  intros Hab Ha Hb Ht0 Ht1. unfold Pd.lerp.
  rewrite int64_small by lia. rewrite !of_Z_exact by lia.
  assert (HD : (0 <= inject_Z (b - a))%Q) by (apply (inject_Z_le 0); lia).
  assert (HB : (inject_Z b == inject_Z a + inject_Z (b - a))%Q).
  { rewrite <- inject_Z_plus. f_equiv. lia. }
  destruct (Qle_bool (1 # 2) t).
  - assert (H1 : (0 <= F64.sub 1 t)%Q) by (apply round_nonneg; lra).
    assert (H2 : (F64.sub 1 t <= 1)%Q) by (apply (round_le_Z _ 1); [done | change (inject_Z 1) with 1%Q; lra]).
    assert (H3 : (0 <= F64.mul (inject_Z (b - a)) (F64.sub 1 t))%Q)
      by (apply round_nonneg; by apply Qmult_le_0_compat).
    assert (H4 : (F64.mul (inject_Z (b - a)) (F64.sub 1 t) <= inject_Z (b - a))%Q)
      by (apply round_le_Z; [lia | by apply Qmult_le_l1]).
    split; [apply round_ge_Z | apply round_le_Z]; try lia; lra.
  - assert (H3 : (0 <= F64.mul (inject_Z (b - a)) t)%Q)
      by (apply round_nonneg; by apply Qmult_le_0_compat).
    assert (H4 : (F64.mul (inject_Z (b - a)) t <= inject_Z (b - a))%Q)
      by (apply round_le_Z; [lia | by apply Qmult_le_l1]).
    split; [apply round_ge_Z | apply round_le_Z]; try lia; lra.
Qed.

Lemma round_le_half (x : Q) (z : Z) :
  (Z.abs z < 2 ^ 53)%Z → (x <= inject_Z z * (1 # 2))%Q →
  (F64.round x <= inject_Z z * (1 # 2))%Q.
Proof. intros Hz Hx. by apply (round_le x z (-1)). Qed.

(** ... and it grows with the weight. *)
Lemma lerp_mono (a b : Z) (t t' : Q) :
  (a ≤ b)%Z → (Z.abs a < 2 ^ 52)%Z → (Z.abs b < 2 ^ 52)%Z →
  (0 <= t)%Q → (t <= t')%Q → (t' <= 1)%Q →
  (Pd.lerp a b t <= Pd.lerp a b t')%Q.
Proof.
  intros Hab Ha Hb Ht0 Htt' Ht1. unfold Pd.lerp.
  rewrite int64_small by lia. rewrite !of_Z_exact by lia.
  assert (HD : (0 <= inject_Z (b - a))%Q) by (apply (inject_Z_le 0); lia).
  assert (HB : (inject_Z b == inject_Z a + inject_Z (b - a))%Q).
  { rewrite <- inject_Z_plus. f_equiv. lia. }
  destruct (Qle_bool (1 # 2) t) eqn:E, (Qle_bool (1 # 2) t') eqn:E'.
  - pose proof (round_mono (1 - t') (1 - t) ltac:(lra)) as Hm.
    unfold F64.sub at 2 4. unfold F64.mul.
    assert (Hr : (0 <= F64.round (1 - t'))%Q) by (apply round_nonneg; lra).
    pose proof (round_mono (inject_Z (b - a) * F64.round (1 - t'))
                           (inject_Z (b - a) * F64.round (1 - t))
                           (Qmult_le_mono_nonneg_l _ _ _ HD Hm)).
    apply round_mono. lra.
  - apply Qle_bool_iff in E.
    assert (¬ (1 # 2 <= t')%Q) by (rewrite <- Qle_bool_iff; congruence). lra.
  - apply Qle_bool_iff in E'.
    assert (Ht : (t <= 1 # 2)%Q).
    { apply Qlt_le_weak, Qnot_le_lt. rewrite <- Qle_bool_iff. congruence. }
    assert (H1 : (F64.mul (inject_Z (b - a)) t <= inject_Z (b - a) * (1 # 2))%Q)
      by (apply round_le_half; [lia | by apply Qmult_le_mono_nonneg_l]).
    assert (H2 : (F64.sub 1 t' <= inject_Z 1 * (1 # 2))%Q)
      by (apply round_le_half; [done | change (inject_Z 1) with 1%Q; lra]).
    change (inject_Z 1) with 1%Q in H2.
    assert (H3 : (0 <= F64.sub 1 t')%Q) by (apply round_nonneg; lra).
    assert (H4 : (F64.mul (inject_Z (b - a)) (F64.sub 1 t')
                  <= inject_Z (b - a) * (1 # 2))%Q)
      by (apply round_le_half; [lia | by apply Qmult_le_mono_nonneg_l]).
    apply round_mono. lra.
  - unfold F64.mul.
    pose proof (round_mono (inject_Z (b - a) * t) (inject_Z (b - a) * t')
                           (Qmult_le_mono_nonneg_l _ _ _ HD Htt')).
    apply round_mono. lra.
Qed.

Lemma sorted_last_upper_bound (l : list Z) (d : Z) :
  StronglySorted Z.le l → Forall (λ v, (v ≤ nth (length l - 1) l d)%Z) l.
Proof.
  induction 1 as [|x l Hl IH Hx]; [constructor|].
  destruct l as [|y l'].
  - constructor; [cbn; lia | constructor].
  - replace (nth (length (x :: y :: l') - 1) (x :: y :: l') d)
      with (nth (length (y :: l') - 1) (y :: l') d)
      by (cbn [length]; rewrite !Nat.sub_succ, !Nat.sub_0_r; reflexivity).
    constructor; [|exact IH].
    rewrite Forall_forall in Hx. apply Hx, list_elem_of_lookup.
    exists (length (y :: l') - 1).
    destruct (nth_lookup_or_length (y :: l') (length (y :: l') - 1) d) as [E|E];
      [exact E | cbn [length] in E; lia].
Qed.

(** In a sorted array a later position holds a larger value. *)
Lemma sorted_nth_mono (a : list Z) (d : Z) (i k : nat) :
  StronglySorted Z.le a → i ≤ k → k < length a → (nth i a d ≤ nth k a d)%Z.
Proof.
  intros Ha. revert i k. induction Ha as [|x l Hl IH Hx]; intros i k Hik Hk.
  { cbn in Hk. lia. }
  destruct i as [|i], k as [|k]; cbn [nth]; try lia.
  - rewrite Forall_forall in Hx. apply Hx, list_elem_of_lookup. exists k.
    destruct (nth_lookup_or_length l k d) as [E|E]; [exact E|cbn in Hk; lia].
  - apply IH; cbn in Hk; lia.
Qed.

(** *** Percentiles of a sorted array *)

Lemma Qle_bool_false_lt (x y : Q) : Qle_bool x y = false → (y < x)%Q.
Proof. intros H. apply Qnot_le_lt. rewrite <- Qle_bool_iff. congruence. Qed.

Section percentile.
Variable a : list Z.
Variable d : Z.
Hypothesis Hsorted : StronglySorted Z.le a.
Hypothesis Hne : a ≠ [].
Hypothesis Hsmall : Forall (λ x, (Z.abs x < 2 ^ 52)%Z) a.
Hypothesis Hlen : (Z.of_nat (length a) < 2 ^ 53)%Z.

Lemma length_pos : (0 < Z.of_nat (length a))%Z.
Proof. destruct a; [done | cbn [length]; lia]. Qed.

Lemma nth_small (i : nat) : i < length a → (Z.abs (nth i a d) < 2 ^ 52)%Z.
Proof.
  intros Hi. destruct (nth_lookup_or_length a i d) as [E|E]; [|lia].
  exact (Forall_lookup_1 _ _ _ _ Hsmall E).
Qed.

Lemma last_index_exact :
  F64.of_Z (Z.of_nat (length a) - 1) = inject_Z (Z.of_nat (length a) - 1).
Proof. pose proof length_pos. apply of_Z_exact. lia. Qed.

(** At or above the last index the percentile is the last entry. *)
Lemma percentile_last (p : Q) :
  Qle_bool (F64.of_Z (Z.of_nat (length a) - 1))
           (F64.mul (F64.of_Z (Z.of_nat (length a) - 1)) (F64.div p 100)) = true →
  Pd.percentile a d p = inject_Z (nth (Z.to_nat (Z.of_nat (length a) - 1)) a d).
Proof.
  intros H. unfold Pd.percentile. cbv zeta. rewrite H. apply lerp_same.
  pose proof length_pos.
  pose proof (nth_small (Z.to_nat (Z.of_nat (length a) - 1)) ltac:(lia)). lia.
Qed.

(** Below it, the percentile interpolates between the entries at the floor
    [j] of the virtual index and at [j + 1], at a weight in [0, 1]. *)
Lemma percentile_inside (p : Q) :
  (0 <= F64.div p 100)%Q →
  Qle_bool (F64.of_Z (Z.of_nat (length a) - 1))
           (F64.mul (F64.of_Z (Z.of_nat (length a) - 1)) (F64.div p 100)) = false →
  ∃ (j : Z) (g : Q),
    j = Qfloor (F64.mul (F64.of_Z (Z.of_nat (length a) - 1)) (F64.div p 100)) ∧
    g = F64.sub (F64.mul (F64.of_Z (Z.of_nat (length a) - 1)) (F64.div p 100))
                (inject_Z j) ∧
    (0 ≤ j < Z.of_nat (length a) - 1)%Z ∧
    (0 <= g)%Q ∧ (g <= 1)%Q ∧
    Pd.percentile a d p =
      Pd.lerp (nth (Z.to_nat j) a d) (nth (Z.to_nat (j + 1)) a d) g.
Proof.
  intros Hq H. pose proof length_pos as Hpos.
  unfold Pd.percentile. cbv zeta. rewrite H.
  rewrite last_index_exact in *.
  set (v := F64.mul (inject_Z (Z.of_nat (length a) - 1)) (F64.div p 100)) in *.
  assert (Hv0 : (0 <= v)%Q).
  { apply round_nonneg. apply Qmult_le_0_compat; [|exact Hq].
    apply (inject_Z_le 0). lia. }
  apply Qle_bool_false_lt in H.
  pose proof (Qfloor_le v) as Hfl. pose proof (Qlt_floor v) as Hfu.
  assert (Hj0 : (0 ≤ Qfloor v)%Z).
  { change 0%Z with (Qfloor 0). by apply Qfloor_resp_le. }
  assert (HjN : (Qfloor v < Z.of_nat (length a) - 1)%Z).
  { rewrite Zlt_Qlt. by eapply Qle_lt_trans. }
  exists (Qfloor v), (F64.sub v (inject_Z (Qfloor v))).
  split; [reflexivity|]. split; [reflexivity|]. split; [lia|].
  rewrite inject_Z_plus in Hfu. change (inject_Z 1) with 1%Q in Hfu.
  split; [apply round_nonneg; lra|].
  split; [apply (round_le_Z _ 1); [done | change (inject_Z 1) with 1%Q; lra]|].
  rewrite Qfloor_Z. change 1%Q with (inject_Z 1) at 1.
  rewrite add_exact by lia. by rewrite Qfloor_Z.
Qed.

(** Every percentile lies between the first and the last entry. *)
Lemma percentile_bounds (p : Q) :
  (0 <= F64.div p 100)%Q →
  (inject_Z (nth 0 a d) <= Pd.percentile a d p)%Q ∧
  (Pd.percentile a d p <= inject_Z (nth (Z.to_nat (Z.of_nat (length a) - 1)) a d))%Q.
Proof.
  intros Hq. pose proof length_pos as Hpos.
  destruct (Qle_bool (F64.of_Z (Z.of_nat (length a) - 1))
              (F64.mul (F64.of_Z (Z.of_nat (length a) - 1)) (F64.div p 100))) eqn:E.
  - rewrite (percentile_last p E). split; [|apply Qle_refl].
    apply inject_Z_le, sorted_nth_mono; [done | lia | lia].
  - destruct (percentile_inside p Hq E) as (j & g & _ & _ & Hj & Hg0 & Hg1 & ->).
    destruct (lerp_bounds (nth (Z.to_nat j) a d) (nth (Z.to_nat (j + 1)) a d) g)
      as [Hlo Hhi]; try done.
    + apply sorted_nth_mono; [done | lia | lia].
    + apply nth_small. lia.
    + apply nth_small. lia.
    + split.
      * eapply Qle_trans; [|exact Hlo].
        apply inject_Z_le, sorted_nth_mono; [done | lia | lia].
      * eapply Qle_trans; [exact Hhi|].
        apply inject_Z_le, sorted_nth_mono; [done | lia | lia].
Qed.

(** The percentile 0 is the first entry, the percentile 100 the last. *)
Lemma percentile_0 (p : Q) :
  F64.div p 100 = 0%Q → Pd.percentile a d p = inject_Z (nth 0 a d).
Proof.
  intros Hq. pose proof length_pos as Hpos.
  destruct (Qle_bool (F64.of_Z (Z.of_nat (length a) - 1))
              (F64.mul (F64.of_Z (Z.of_nat (length a) - 1)) (F64.div p 100))) eqn:E.
  - rewrite (percentile_last p E). rewrite Hq, mul_0_r, last_index_exact in E.
    apply Qle_bool_iff in E. change 0%Q with (inject_Z 0) in E.
    rewrite <- Zle_Qle in E.
    by replace (Z.of_nat (length a) - 1)%Z with 0%Z by lia.
  - unfold Pd.percentile. cbv zeta. rewrite E. rewrite Hq, mul_0_r.
    change (Qfloor 0) with 0%Z. change (F64.sub 0 (inject_Z 0)) with 0%Q.
    change (Z.to_nat (Qfloor (inject_Z 0))) with 0%nat.
    apply lerp_0. pose proof (nth_small 0 ltac:(lia)). lia.
Qed.

Lemma percentile_1 (p : Q) :
  F64.div p 100 = 1%Q →
  Pd.percentile a d p = inject_Z (nth (Z.to_nat (Z.of_nat (length a) - 1)) a d).
Proof.
  intros Hq. pose proof length_pos as Hpos. apply percentile_last.
  rewrite Hq, last_index_exact. apply Qle_bool_iff.
  unfold F64.mul. rewrite (round_eq_Z _ (Z.of_nat (length a) - 1));
    [apply Qle_refl | ring | lia].
Qed.

(** The percentile grows with the quantile. *)
Lemma percentile_mono (p1 p2 : Q) :
  (0 <= F64.div p1 100)%Q → (F64.div p1 100 <= F64.div p2 100)%Q →
  (Pd.percentile a d p1 <= Pd.percentile a d p2)%Q.
Proof.
  intros Hq1 Hq12. pose proof length_pos as Hpos.
  assert (Hq2 : (0 <= F64.div p2 100)%Q) by lra.
  assert (Hv : (F64.mul (F64.of_Z (Z.of_nat (length a) - 1)) (F64.div p1 100)
                <= F64.mul (F64.of_Z (Z.of_nat (length a) - 1)) (F64.div p2 100))%Q).
  { apply round_mono. apply Qmult_le_mono_nonneg_l; [|exact Hq12].
    rewrite last_index_exact. apply (inject_Z_le 0). lia. }
  destruct (Qle_bool (F64.of_Z (Z.of_nat (length a) - 1))
              (F64.mul (F64.of_Z (Z.of_nat (length a) - 1)) (F64.div p2 100))) eqn:E2.
  { rewrite (percentile_last p2 E2). by apply percentile_bounds. }
  destruct (Qle_bool (F64.of_Z (Z.of_nat (length a) - 1))
              (F64.mul (F64.of_Z (Z.of_nat (length a) - 1)) (F64.div p1 100))) eqn:E1.
  { apply Qle_bool_iff in E1. apply Qle_bool_false_lt in E2. lra. }
  destruct (percentile_inside p1 Hq1 E1) as (j1 & g1 & Ej1 & Eg1 & Hj1 & Hg10 & Hg11 & ->).
  destruct (percentile_inside p2 Hq2 E2) as (j2 & g2 & Ej2 & Eg2 & Hj2 & Hg20 & Hg21 & ->).
  assert (Hjj : (j1 ≤ j2)%Z) by (subst j1 j2; by apply Qfloor_resp_le).
  destruct (Z.eq_dec j1 j2) as [Heq|Hneq].
  - subst j2. rewrite <- Heq in *.
    apply lerp_mono; try done.
    + apply sorted_nth_mono; [done | lia | lia].
    + apply nth_small. lia.
    + apply nth_small. lia.
    + subst g1 g2. apply round_mono. lra.
  - destruct (lerp_bounds (nth (Z.to_nat j1) a d) (nth (Z.to_nat (j1 + 1)) a d) g1)
      as [_ Hhi]; try done.
    { apply sorted_nth_mono; [done | lia | lia]. }
    { apply nth_small. lia. }
    { apply nth_small. lia. }
    destruct (lerp_bounds (nth (Z.to_nat j2) a d) (nth (Z.to_nat (j2 + 1)) a d) g2)
      as [Hlo _]; try done.
    { apply sorted_nth_mono; [done | lia | lia]. }
    { apply nth_small. lia. }
    { apply nth_small. lia. }
    eapply Qle_trans; [exact Hhi|]. eapply Qle_trans; [|exact Hlo].
    apply inject_Z_le, sorted_nth_mono; [done | lia | lia].
Qed.
End percentile.

(** *** Quantile edges *)

(** The three-quantile points, and the quantiles [np.percentile] computes
    from them, are in ascending order from 0 to 1. *)
Lemma quantiles_3 :
  ∃ t1 t2,
    Pd.linspace 0 1 (3 + 1) = [0; t1; t2; 1]%Q ∧
    F64.div (F64.mul 0 100) 100 = 0%Q ∧
    F64.div (F64.mul 1 100) 100 = 1%Q ∧
    (0 <= F64.div (F64.mul t1 100) 100)%Q ∧
    (F64.div (F64.mul t1 100) 100 <= F64.div (F64.mul t2 100) 100)%Q.
Proof.
  eexists _, _. split; [vm_compute; reflexivity|].
  split; [vm_compute; reflexivity|]. split; [vm_compute; reflexivity|].
  split; apply Qle_bool_iff; vm_compute; reflexivity.
Qed.

(** The sorted values start at the minimum and end at the maximum. *)
Lemma sorted_ends (xs : list Z) (mn mx : Z) :
  Pd.min xs = Some mn → Pd.max xs = Some mx →
  ∃ a0 t,
    merge_sort Z.le xs = a0 :: t ∧
    nth 0 (a0 :: t) a0 = mn ∧
    nth (Z.to_nat (Z.of_nat (length (a0 :: t)) - 1)) (a0 :: t) a0 = mx.
Proof.
  intros Hmin Hmax.
  pose proof (merge_sort_Permutation Z.le xs) as Hperm.
  pose proof (StronglySorted_merge_sort Z.le xs) as Hsorted.
  destruct (merge_sort Z.le xs) as [|a0 t] eqn:Ha.
  { symmetry in Hperm. apply Permutation_nil_r in Hperm. by subst xs. }
  exists a0, t. split; [reflexivity|].
  pose proof (min_lower_bound _ _ Hmin) as Hlo. pose proof (min_in _ _ Hmin) as Hmn.
  pose proof (max_upper_bound _ _ Hmax) as Hhi. pose proof (max_in _ _ Hmax) as Hmx.
  pose proof (sorted_last_upper_bound _ a0 Hsorted) as Hlast.
  rewrite <- Hperm in Hlo, Hhi, Hmn, Hmx.
  rewrite Forall_forall in Hlo, Hhi, Hlast.
  replace (Z.to_nat (Z.of_nat (length (a0 :: t)) - 1))
    with (length (a0 :: t) - 1) by lia.
  split.
  - cbn [nth]. apply Z.le_antisymm.
    + apply elem_of_cons in Hmn as [->|Hmn]; [lia|].
      apply StronglySorted_inv in Hsorted as [_ Hfirst].
      rewrite Forall_forall in Hfirst. by apply Hfirst.
    + apply Hlo, list_elem_of_here.
  - apply Z.le_antisymm.
    + apply Hhi. apply list_elem_of_lookup. exists (length (a0 :: t) - 1).
      destruct (nth_lookup_or_length (a0 :: t) (length (a0 :: t) - 1) a0) as [E|E];
        [exact E | cbn [length] in E; lia].
    + by apply Hlast.
Qed.

(** On a non-empty column of values below [2^52] in absolute value, with
    fewer than [2^53] entries, the four quantile edges are numbers in
    ascending order, the first the minimum and the last the maximum. *)
Lemma quantile_edges (xs : list Z) (mn mx : Z) :
  Pd.min xs = Some mn → Pd.max xs = Some mx →
  Forall (λ x, (Z.abs x < 2 ^ 52)%Z) xs → (Z.of_nat (length xs) < 2 ^ 53)%Z →
  ∃ q1 q2,
    Pd.quantile xs <$> Pd.linspace 0 1 (3 + 1)
      = [Pd.Num (inject_Z mn); Pd.Num q1; Pd.Num q2; Pd.Num (inject_Z mx)] ∧
    (inject_Z mn <= q1)%Q ∧ (q1 <= q2)%Q ∧ (q2 <= inject_Z mx)%Q.
Proof.
  intros Hmin Hmax Hsmall Hlen.
  destruct quantiles_3 as (t1 & t2 & -> & H0 & H1 & Ht1 & Ht12).
  destruct (sorted_ends xs mn mx Hmin Hmax) as (a0 & t & Ha & Hfirst & Hlast).
  pose proof (merge_sort_Permutation Z.le xs) as Hperm.
  pose proof (StronglySorted_merge_sort Z.le xs) as Hsorted.
  rewrite Ha in Hperm, Hsorted.
  assert (Hne : a0 :: t ≠ []) by done.
  assert (Hsmall' : Forall (λ x, (Z.abs x < 2 ^ 52)%Z) (a0 :: t)) by by rewrite Hperm.
  assert (Hlen' : (Z.of_nat (length (a0 :: t)) < 2 ^ 53)%Z) by by rewrite Hperm.
  cbn [fmap list_fmap]. unfold Pd.quantile. rewrite Ha.
  assert (E0 : Pd.percentile (a0 :: t) a0 (F64.mul 0 100) = inject_Z mn)
    by (rewrite <- Hfirst; apply percentile_0; assumption).
  assert (E1 : Pd.percentile (a0 :: t) a0 (F64.mul 1 100) = inject_Z mx)
    by (rewrite <- Hlast; apply percentile_1; assumption).
  rewrite E0, E1. eexists _, _. split; [reflexivity|].
  assert (Ht2 : (0 <= F64.div (F64.mul t2 100) 100)%Q) by lra.
  destruct (percentile_bounds (a0 :: t) a0) with (p := F64.mul t1 100) as [Hlo _];
    try assumption.
  destruct (percentile_bounds (a0 :: t) a0) with (p := F64.mul t2 100) as [_ Hhi];
    try assumption.
  rewrite Hfirst in Hlo. rewrite Hlast in Hhi.
  split; [exact Hlo|]. split; [|exact Hhi].
  apply percentile_mono; assumption.
Qed.

(** *** Equal-width edges *)

(** Bounds on the grid of multiples of [2^-14] pass through rounding. *)
Lemma grid_point (m d c : Z) :
  (inject_Z m + (c # 1) * inject_Z d * (1 # 16384)
   == inject_Z (m * 16384 + c * d) * F64.pow2 (-14))%Q.
Proof.
  rewrite inject_Z_plus, !inject_Z_mult.
  change (F64.pow2 (-14)) with (1 # 16384)%Q. change (c # 1) with (inject_Z c).
  change (inject_Z 16384) with (16384 # 1)%Q. ring.
Qed.

Lemma round_aff_le (x : Q) (m d c : Z) :
  (Z.abs (m * 16384 + c * d) < 2 ^ 53)%Z →
  (x <= inject_Z m + (c # 1) * inject_Z d * (1 # 16384))%Q →
  (F64.round x <= inject_Z m + (c # 1) * inject_Z d * (1 # 16384))%Q.
Proof. intros Hz Hx. rewrite grid_point in *. by apply round_le. Qed.

Lemma round_aff_ge (x : Q) (m d c : Z) :
  (Z.abs (m * 16384 + c * d) < 2 ^ 53)%Z →
  (inject_Z m + (c # 1) * inject_Z d * (1 # 16384) <= x)%Q →
  (inject_Z m + (c # 1) * inject_Z d * (1 # 16384) <= F64.round x)%Q.
Proof. intros Hz Hx. rewrite grid_point in *. by apply round_ge. Qed.

Lemma round_lin_le (x : Q) (d c : Z) :
  (Z.abs (c * d) < 2 ^ 53)%Z →
  (x <= (c # 1) * inject_Z d * (1 # 16384))%Q →
  (F64.round x <= (c # 1) * inject_Z d * (1 # 16384))%Q.
Proof.
  intros Hz Hx. pose proof (round_aff_le x 0 d c) as H.
  change (inject_Z 0) with 0%Q in H. rewrite Qplus_0_l in H.
  apply H; [lia | exact Hx].
Qed.

Lemma round_lin_ge (x : Q) (d c : Z) :
  (Z.abs (c * d) < 2 ^ 53)%Z →
  ((c # 1) * inject_Z d * (1 # 16384) <= x)%Q →
  ((c # 1) * inject_Z d * (1 # 16384) <= F64.round x)%Q.
Proof.
  intros Hz Hx. pose proof (round_aff_ge x 0 d c) as H.
  change (inject_Z 0) with 0%Q in H. rewrite Qplus_0_l in H.
  apply H; [lia | exact Hx].
Qed.

Lemma c001_bounds : (16 # 16384 <= Pd.c001)%Q ∧ (Pd.c001 <= 17 # 16384)%Q.
Proof. split; apply Qle_bool_iff; vm_compute; reflexivity. Qed.

(** Four points of [linspace] when the step is not zero. *)
Lemma linspace_4 (s e : Q) :
  ¬ (F64.div (F64.sub e s) 3 == 0)%Q →
  Pd.linspace s e (3 + 1) =
    [F64.add (F64.mul 0 (F64.div (F64.sub e s) 3)) s;
     F64.add (F64.mul 1 (F64.div (F64.sub e s) 3)) s;
     F64.add (F64.mul 2 (F64.div (F64.sub e s) 3)) s;
     e].
Proof.
  intros Hstep.
  assert (Hb : Qeq_bool (F64.div (F64.sub e s) 3) 0 = false).
  { apply not_true_iff_false. by rewrite Qeq_bool_iff. }
  unfold Pd.linspace. cbv zeta.
  change (inject_Z (Z.of_nat (3 + 1 - 1))) with 3%Q.
  rewrite Hb. reflexivity.
Qed.

(** The edges over a column that is not constant: the lowest edge is below
    the minimum, the inner edges lie strictly between the minimum and the
    maximum, in order, and the last edge is the maximum. *)
Lemma spread_edges (mn mx : Z) :
  (0 ≤ mn)%Z → (mn < mx)%Z → (mx < 2 ^ 32)%Z →
  ∃ y0 b1 b2,
    Pd.linspace (F64.of_Z mn) (F64.of_Z mx) (3 + 1) = [y0; b1; b2; inject_Z mx] ∧
    (F64.sub y0 (F64.mul (F64.of_Z (Pd.int64 (mx - mn))) Pd.c001) < inject_Z mn)%Q ∧
    (inject_Z mn < b1)%Q ∧ (b1 < b2)%Q ∧ (b2 < inject_Z mx)%Q.
Proof.
  intros Hmn Hlt Hmx.
  rewrite int64_small by lia. rewrite !of_Z_exact by lia.
  destruct c001_bounds as [Hc1 Hc2].
  assert (HD : (1 <= inject_Z (mx - mn))%Q) by (apply (inject_Z_le 1); lia).
  assert (HX : (inject_Z mx == inject_Z mn + inject_Z (mx - mn))%Q).
  { rewrite <- inject_Z_plus. f_equiv. lia. }
  assert (Hdelta : F64.sub (inject_Z mx) (inject_Z mn) = inject_Z (mx - mn))
    by (apply sub_exact; lia).
  assert (Hs1 : ((5461 # 1) * inject_Z (mx - mn) * (1 # 16384)
                 <= F64.div (inject_Z (mx - mn)) 3)%Q)
    by (apply round_lin_ge; [lia | unfold Qdiv; change (/ 3)%Q with (1 # 3)%Q; lra]).
  assert (Hs2 : (F64.div (inject_Z (mx - mn)) 3
                 <= (5462 # 1) * inject_Z (mx - mn) * (1 # 16384))%Q)
    by (apply round_lin_le; [lia | unfold Qdiv; change (/ 3)%Q with (1 # 3)%Q; lra]).
  rewrite linspace_4; rewrite Hdelta; [|lra].
  set (step := F64.div (inject_Z (mx - mn)) 3) in *.
  rewrite mul_0_l.
  assert (Hy0 : F64.add 0 (inject_Z mn) = inject_Z mn)
    by (apply round_eq_Z; [ring | lia]).
  rewrite Hy0.
  eexists _, _, _. split; [reflexivity|].
  assert (Ha1 : ((16 # 1) * inject_Z (mx - mn) * (1 # 16384)
                 <= F64.mul (inject_Z (mx - mn)) Pd.c001)%Q)
    by (apply round_lin_ge; [lia | nra]).
  assert (Hb0 : (F64.sub (inject_Z mn) (F64.mul (inject_Z (mx - mn)) Pd.c001)
                 <= inject_Z mn + (-16 # 1) * inject_Z (mx - mn) * (1 # 16384))%Q)
    by (apply round_aff_le; [lia | lra]).
  assert (Hm1a : ((5461 # 1) * inject_Z (mx - mn) * (1 # 16384) <= F64.mul 1 step)%Q)
    by (apply round_lin_ge; [lia | lra]).
  assert (Hm1b : (F64.mul 1 step <= (5462 # 1) * inject_Z (mx - mn) * (1 # 16384))%Q)
    by (apply round_lin_le; [lia | lra]).
  assert (Hm2a : ((10922 # 1) * inject_Z (mx - mn) * (1 # 16384) <= F64.mul 2 step)%Q)
    by (apply round_lin_ge; [lia | lra]).
  assert (Hm2b : (F64.mul 2 step <= (10924 # 1) * inject_Z (mx - mn) * (1 # 16384))%Q)
    by (apply round_lin_le; [lia | lra]).
  assert (Hb1a : (inject_Z mn + (5461 # 1) * inject_Z (mx - mn) * (1 # 16384)
                  <= F64.add (F64.mul 1 step) (inject_Z mn))%Q)
    by (apply round_aff_ge; [lia | lra]).
  assert (Hb1b : (F64.add (F64.mul 1 step) (inject_Z mn)
                  <= inject_Z mn + (5462 # 1) * inject_Z (mx - mn) * (1 # 16384))%Q)
    by (apply round_aff_le; [lia | lra]).
  assert (Hb2a : (inject_Z mn + (10922 # 1) * inject_Z (mx - mn) * (1 # 16384)
                  <= F64.add (F64.mul 2 step) (inject_Z mn))%Q)
    by (apply round_aff_ge; [lia | lra]).
  assert (Hb2b : (F64.add (F64.mul 2 step) (inject_Z mn)
                  <= inject_Z mn + (10924 # 1) * inject_Z (mx - mn) * (1 # 16384))%Q)
    by (apply round_aff_le; [lia | lra]).
  repeat split; lra.
Qed.

(** The edges over a constant column of value [v]: the column is widened by
    [e], about 0.1% of [v], on both sides, and the value lies strictly
    between the two inner edges. *)
Lemma widened_edges (v w : Z) (e : Q) :
  (0 ≤ v)%Z → (v < 2 ^ 32)%Z → (1 ≤ w)%Z → (w < 2 ^ 32)%Z →
  ((16 # 1) * inject_Z w * (1 # 16384) <= e)%Q →
  (e <= (17 # 1) * inject_Z w * (1 # 16384))%Q →
  ∃ b0 b1 b2 b3,
    Pd.linspace (F64.sub (inject_Z v) e) (F64.add (inject_Z v) e) (3 + 1)
      = [b0; b1; b2; b3] ∧
    (b0 < b1)%Q ∧ (b1 < inject_Z v)%Q ∧ (inject_Z v < b2)%Q ∧ (b2 < b3)%Q.
Proof.
  intros Hv0 Hv Hw1 Hw He1 He2.
  assert (HW : (1 <= inject_Z w)%Q) by (apply (inject_Z_le 1); lia).
  set (mn' := F64.sub (inject_Z v) e). set (mx' := F64.add (inject_Z v) e).
  assert (Hmn1 : (inject_Z v + (-17 # 1) * inject_Z w * (1 # 16384) <= mn')%Q)
    by (apply round_aff_ge; [lia | lra]).
  assert (Hmn2 : (mn' <= inject_Z v + (-16 # 1) * inject_Z w * (1 # 16384))%Q)
    by (apply round_aff_le; [lia | lra]).
  assert (Hmx1 : (inject_Z v + (16 # 1) * inject_Z w * (1 # 16384) <= mx')%Q)
    by (apply round_aff_ge; [lia | lra]).
  assert (Hmx2 : (mx' <= inject_Z v + (17 # 1) * inject_Z w * (1 # 16384))%Q)
    by (apply round_aff_le; [lia | lra]).
  assert (Hd1 : ((32 # 1) * inject_Z w * (1 # 16384) <= F64.sub mx' mn')%Q)
    by (apply round_lin_ge; [lia | lra]).
  assert (Hd2 : (F64.sub mx' mn' <= (34 # 1) * inject_Z w * (1 # 16384))%Q)
    by (apply round_lin_le; [lia | lra]).
  assert (Hs1 : ((10 # 1) * inject_Z w * (1 # 16384) <= F64.div (F64.sub mx' mn') 3)%Q)
    by (apply round_lin_ge; [lia | unfold Qdiv; change (/ 3)%Q with (1 # 3)%Q; lra]).
  assert (Hs2 : (F64.div (F64.sub mx' mn') 3 <= (12 # 1) * inject_Z w * (1 # 16384))%Q)
    by (apply round_lin_le; [lia | unfold Qdiv; change (/ 3)%Q with (1 # 3)%Q; lra]).
  rewrite linspace_4 by lra.
  set (step := F64.div (F64.sub mx' mn') 3) in *.
  rewrite mul_0_l.
  eexists _, _, _, _. split; [reflexivity|].
  assert (Hy0 : (F64.add 0 mn' <= inject_Z v + (-16 # 1) * inject_Z w * (1 # 16384))%Q)
    by (apply round_aff_le; [lia | lra]).
  assert (Hm1a : ((10 # 1) * inject_Z w * (1 # 16384) <= F64.mul 1 step)%Q)
    by (apply round_lin_ge; [lia | lra]).
  assert (Hm1b : (F64.mul 1 step <= (12 # 1) * inject_Z w * (1 # 16384))%Q)
    by (apply round_lin_le; [lia | lra]).
  assert (Hm2a : ((20 # 1) * inject_Z w * (1 # 16384) <= F64.mul 2 step)%Q)
    by (apply round_lin_ge; [lia | lra]).
  assert (Hm2b : (F64.mul 2 step <= (24 # 1) * inject_Z w * (1 # 16384))%Q)
    by (apply round_lin_le; [lia | lra]).
  assert (Hb1a : (inject_Z v + (-7 # 1) * inject_Z w * (1 # 16384)
                  <= F64.add (F64.mul 1 step) mn')%Q)
    by (apply round_aff_ge; [lia | lra]).
  assert (Hb1b : (F64.add (F64.mul 1 step) mn'
                  <= inject_Z v + (-4 # 1) * inject_Z w * (1 # 16384))%Q)
    by (apply round_aff_le; [lia | lra]).
  assert (Hb2a : (inject_Z v + (3 # 1) * inject_Z w * (1 # 16384)
                  <= F64.add (F64.mul 2 step) mn')%Q)
    by (apply round_aff_ge; [lia | lra]).
  assert (Hb2b : (F64.add (F64.mul 2 step) mn'
                  <= inject_Z v + (8 # 1) * inject_Z w * (1 # 16384))%Q)
    by (apply round_aff_le; [lia | lra]).
  repeat split; lra.
Qed.

Lemma unique_length_le (l : list Pd.num) : length (Pd.unique l) ≤ length l.
Proof.
  induction l as [|b t IH]; [done|]. cbn [Pd.unique length].
  pose proof (List.filter_length_le (λ c, negb (Pd.num_eqb b c)) (Pd.unique t)).
  lia.
Qed.

Lemma unique_length_tail (b : Pd.num) (t : list Pd.num) :
  length (Pd.unique (b :: t)) = length (b :: t) → length (Pd.unique t) = length t.
Proof.
  cbn [Pd.unique length]. intros Hlen.
  pose proof (List.filter_length_le (λ c, negb (Pd.num_eqb b c)) (Pd.unique t)).
  pose proof (unique_length_le t). lia.
Qed.

(** Accepted edges: the last two of four differ. *)
Lemma bins_to_cuts_Ok_distinct (x : list Z) (q0 q1 q2 q3 : Q) labels il c :
  Pd.bins_to_cuts x [Pd.Num q0; Pd.Num q1; Pd.Num q2; Pd.Num q3] labels il = Ok c →
  Qeq_bool q2 q3 = false.
Proof.
  unfold Pd.bins_to_cuts.
  destruct (length (Pd.unique _) <? _) eqn:Hlt; [discriminate|]. intros _.
  apply Nat.ltb_ge in Hlt.
  pose proof (unique_length_le [Pd.Num q0; Pd.Num q1; Pd.Num q2; Pd.Num q3]) as Hle.
  assert (Hlen : length (Pd.unique [Pd.Num q2; Pd.Num q3]) = 2).
  { apply (unique_length_tail (Pd.Num q1)), (unique_length_tail (Pd.Num q0)). lia. }
  cbn in Hlen. by destruct (Qeq_bool q2 q3).
Qed.

Lemma Qeq_bool_lt_false (v b : Q) : (b < v)%Q → Qeq_bool v b = false.
Proof.
  intros Hlt. apply not_true_iff_false. rewrite Qeq_bool_iff. intros Heq.
  rewrite Heq in Hlt. by apply Qlt_irrefl in Hlt.
Qed.

Lemma num_lt_false (b v : Q) : (v <= b)%Q → Pd.num_lt (Pd.Num b) v = false.
Proof.
  intros Hle. apply not_true_iff_false. rewrite num_lt_spec. by apply Qle_not_lt.
Qed.

Lemma num_lt_true (b v : Q) : (b < v)%Q → Pd.num_lt (Pd.Num b) v = true.
Proof. apply num_lt_spec. Qed.

Lemma min_le_max (xs : list Z) (mn mx : Z) :
  Pd.min xs = Some mn → Pd.max xs = Some mx → (mn ≤ mx)%Z.
Proof.
  intros Hmin Hmax. pose proof (max_upper_bound _ _ Hmax) as Hhi.
  rewrite Forall_forall in Hhi. by apply Hhi, min_in.
Qed.

(** On a non-empty column of counts from 0 up to [2^32] the equal-width
    edges are strictly increasing and enclose every value: the lowest edge
    is below the minimum and the last edge is at least the maximum.  When
    the column is not constant the minimum is in the first bin and the
    last edge is the maximum; when it is constant its value lies between
    the two inner edges. *)
Lemma equal_width_edges (xs : list Z) (mn mx : Z) :
  Pd.min xs = Some mn → Pd.max xs = Some mx → (0 ≤ mn)%Z → (mx < 2 ^ 32)%Z →
  ∃ b0 b1 b2 b3,
    Pd.nbins_to_bins xs 3 = Ok [Pd.Num b0; Pd.Num b1; Pd.Num b2; Pd.Num b3] ∧
    (b0 < b1)%Q ∧ (b1 < b2)%Q ∧ (b2 < b3)%Q ∧
    (b0 < inject_Z mn)%Q ∧ (inject_Z mx <= b3)%Q ∧
    ((mn < mx)%Z → (inject_Z mn < b1)%Q ∧ (b2 < inject_Z mx)%Q) ∧
    (mn = mx → (b1 < inject_Z mn)%Q ∧ (inject_Z mn < b2)%Q).
Proof.
  intros Hmin Hmax Hmn Hmx. pose proof (min_le_max _ _ _ Hmin Hmax) as Hle.
  unfold Pd.nbins_to_bins. change (3 <? 1) with false. cbv iota.
  rewrite Hmin, Hmax. destruct (Z.eqb_spec mn mx) as [Heq|Hneq].
  - subst mn. destruct c001_bounds as [Hc1 Hc2].
    rewrite !of_Z_exact by lia.
    assert (He : ∃ w e,
               (if (mx =? 0)%Z then Pd.c001
                else F64.mul Pd.c001 (F64.of_Z (Pd.int64 (Z.abs mx)))) = e ∧
               (1 ≤ w)%Z ∧ (w < 2 ^ 32)%Z ∧
               ((16 # 1) * inject_Z w * (1 # 16384) <= e)%Q ∧
               (e <= (17 # 1) * inject_Z w * (1 # 16384))%Q).
    { destruct (Z.eqb_spec mx 0) as [Hz|Hnz].
      - exists 1%Z, Pd.c001. split; [reflexivity|]. split; [lia|]. split; [lia|].
        change (inject_Z 1) with 1%Q. split; lra.
      - exists mx. eexists. split; [reflexivity|]. split; [lia|]. split; [lia|].
        rewrite int64_small by lia. rewrite Z.abs_eq by lia.
        rewrite of_Z_exact by lia.
        assert (HV : (1 <= inject_Z mx)%Q) by (apply (inject_Z_le 1); lia).
        split; [apply round_lin_ge | apply round_lin_le]; try lia; nra. }
    destruct He as (w & e & -> & Hw1 & Hw2 & He1 & He2).
    destruct (widened_edges mx w e Hmn Hmx Hw1 Hw2 He1 He2)
      as (b0 & b1 & b2 & b3 & -> & H01 & H1v & Hv2 & H23).
    exists b0, b1, b2, b3. split; [reflexivity|].
    repeat split; try lra; lia.
  - destruct (spread_edges mn mx) as (y0 & b1 & b2 & -> & H0 & H1 & H12 & H2);
      [lia | lia | lia |].
    eexists _, b1, b2, (inject_Z mx).
    split; [reflexivity|].
    repeat split; try lra; lia.
Qed.

(** A value from the lowest edge up to the second edge is in the first
    bin. *)
Lemma bin_index_first (b0 b1 : Q) (rest : list Pd.num) (v : Z) :
  (b0 <= F64.of_Z v)%Q → (F64.of_Z v <= b1)%Q →
  Pd.bin_index (Pd.Num b0 :: Pd.Num b1 :: rest) true v = 1.
Proof.
  intros Hlo Hhi. unfold Pd.bin_index.
  cbn [andb head default from_option id Pd.num_eqb].
  destruct (Qeq_bool (F64.of_Z v) b0) eqn:E; cbv iota; [reflexivity|].
  cbn [Pd.searchsorted_left].
  assert (Hlt : (b0 < F64.of_Z v)%Q).
  { apply Qle_lteq in Hlo as [Hlt|Heq]; [done|].
    symmetry in Heq. apply Qeq_bool_iff in Heq. congruence. }
  by rewrite (num_lt_true _ _ Hlt), (num_lt_false _ _ Hhi).
Qed.

Lemma bin_index_second (b0 b1 b2 : Q) (rest : list Pd.num) (v : Z) :
  (b0 < F64.of_Z v)%Q → (b1 < F64.of_Z v)%Q → (F64.of_Z v <= b2)%Q →
  Pd.bin_index (Pd.Num b0 :: Pd.Num b1 :: Pd.Num b2 :: rest) true v = 2.
Proof.
  intros H0 H1 H2. unfold Pd.bin_index.
  cbn [andb head default from_option id Pd.num_eqb].
  rewrite (Qeq_bool_lt_false _ _ H0). cbn [Pd.searchsorted_left].
  by rewrite (num_lt_true _ _ H0), (num_lt_true _ _ H1), (num_lt_false _ _ H2).
Qed.

Lemma bin_index_third (b0 b1 b2 b3 : Q) (rest : list Pd.num) (v : Z) :
  (b0 < F64.of_Z v)%Q → (b1 < F64.of_Z v)%Q → (b2 < F64.of_Z v)%Q →
  (F64.of_Z v <= b3)%Q →
  Pd.bin_index (Pd.Num b0 :: Pd.Num b1 :: Pd.Num b2 :: Pd.Num b3 :: rest) true v = 3.
Proof.
  intros H0 H1 H2 H3. unfold Pd.bin_index.
  cbn [andb head default from_option id Pd.num_eqb].
  rewrite (Qeq_bool_lt_false _ _ H0). cbn [Pd.searchsorted_left].
  by rewrite (num_lt_true _ _ H0), (num_lt_true _ _ H1), (num_lt_true _ _ H2),
    (num_lt_false _ _ H3).
Qed.

(** *** The clustering stage on a non-empty view *)

(** On a non-empty column of counts from 0 up to [2^32], with fewer than
    [2^53] entries, either quantile binning succeeds, or it raises
    [ValueError] and equal-width binning succeeds.  The labels come from
    four edges in ascending order that enclose every value; they put the
    minimum in the first bin and the maximum in the last when the two
    differ, and the single value of a constant column in the middle
    bin. *)
Lemma binning_recovers (xs : list Z) (mn mx : Z) :
  Pd.min xs = Some mn → Pd.max xs = Some mx →
  Forall (λ x, (0 ≤ x < 2 ^ 32)%Z) xs → (Z.of_nat (length xs) < 2 ^ 53)%Z →
  ∃ b0 b1 b2 b3,
    let bins := [Pd.Num b0; Pd.Num b1; Pd.Num b2; Pd.Num b3] in
    let c := Pd.bin_label bins cluster_labels true <$> xs in
    (b0 <= b1)%Q ∧ (b1 <= b2)%Q ∧ (b2 <= b3)%Q ∧
    Forall (λ v, 1 ≤ Pd.bin_index bins true v ≤ 3) xs ∧
    (Pd.qcut xs 3 cluster_labels = Ok c ∨
     ∃ e, Pd.qcut xs 3 cluster_labels = Raise e ∧ catches_ValueError e = true ∧
          Pd.cut xs 3 cluster_labels true = Ok c) ∧
    ((mn < mx)%Z → Pd.bin_index bins true mn = 1 ∧ Pd.bin_index bins true mx = 3) ∧
    (mn = mx → Pd.bin_index bins true mn = 2).
Proof.
  intros Hmin Hmax Hrange Hlen.
  pose proof (min_lower_bound _ _ Hmin) as Hlo.
  pose proof (max_upper_bound _ _ Hmax) as Hhi.
  pose proof (min_in _ _ Hmin) as Hmn. pose proof (max_in _ _ Hmax) as Hmx.
  rewrite Forall_forall in Hlo, Hhi.
  assert (Hr : ∀ v, v ∈ xs → (0 ≤ v < 2 ^ 32)%Z)
    by (by apply Forall_forall).
  pose proof (Hr _ Hmn) as Hmn'. pose proof (Hr _ Hmx) as Hmx'.
  assert (Hof : ∀ v, v ∈ xs → F64.of_Z v = inject_Z v).
  { intros v Hv. apply of_Z_exact. specialize (Hr v Hv). lia. }
  assert (Hbetween : ∀ v, v ∈ xs →
            (inject_Z mn <= F64.of_Z v)%Q ∧ (F64.of_Z v <= inject_Z mx)%Q).
  { intros v Hv. rewrite (Hof v Hv).
    split; apply inject_Z_le; [by apply Hlo | by apply Hhi]. }
  destruct (Pd.qcut xs 3 cluster_labels) as [c|e] eqn:Hq.
  - destruct (quantile_edges xs mn mx Hmin Hmax) as (q1 & q2 & Hbins & H01 & H12 & H23).
    { eapply Forall_impl; [exact Hrange|]. cbn. intros; lia. }
    { exact Hlen. }
    unfold Pd.qcut in Hq. rewrite Hbins in Hq.
    pose proof (bins_to_cuts_Ok_distinct _ _ _ _ _ _ _ _ Hq) as Hd.
    apply bins_to_cuts_Ok in Hq.
    assert (H23' : (q2 < inject_Z mx)%Q).
    { apply Qle_lteq in H23 as [?|Heq]; [done|].
      apply Qeq_bool_iff in Heq. congruence. }
    exists (inject_Z mn), q1, q2, (inject_Z mx). cbv zeta.
    split; [exact H01|]. split; [exact H12|]. split; [exact H23|].
    split; [|split; [left; by rewrite Hq|split]].
    + apply Forall_forall. intros v Hv. destruct (Hbetween v Hv).
      apply (bin_index_range _ (inject_Z mx) _ 3 v); [done | reflexivity | done | lia].
    + intros Hlt%inject_Z_lt. split.
      * apply bin_index_first; rewrite (Hof mn Hmn); lra.
      * apply bin_index_third; rewrite (Hof mx Hmx); lra.
    + intros ->. lra.
  - destruct (equal_width_edges xs mn mx Hmin Hmax)
      as (b0 & b1 & b2 & b3 & Hbins & H01 & H12 & H23 & Hb0 & Hb3 & Hne & Heq);
      [lia | lia |].
    exists b0, b1, b2, b3. cbv zeta.
    split; [lra|]. split; [lra|]. split; [lra|].
    split; [|split; [|split]].
    + apply Forall_forall. intros v Hv. destruct (Hbetween v Hv).
      apply (bin_index_range _ b3 _ 3 v); [lra | reflexivity | lra | lia].
    + right. exists e. split; [reflexivity|]. split.
      * unfold Pd.qcut in Hq. by apply bins_to_cuts_Raise in Hq.
      * unfold Pd.cut. rewrite Hbins. cbn [result_bind].
        by apply bins_to_cuts_increasing.
    + intros Hlt. destruct (Hne Hlt) as [H1 H2]. apply inject_Z_lt in Hlt. split.
      * apply bin_index_first; rewrite (Hof mn Hmn); lra.
      * apply bin_index_third; rewrite (Hof mx Hmx); lra.
    + intros ->. destruct (Heq eq_refl) as [H1 H2].
      apply bin_index_second; rewrite (Hof mx Hmx); lra.
Qed.

(** On a non-empty view with counts in range the stage ends normally and
    has assigned the cluster column of the view's frame. *)
Lemma clustering_stage_run (σ : state) (df : loc) :
  let f := heap σ !!! df in
  rows f ≠ [] → counts_in_range (rows f) →
  ∃ bins,
    let c := Pd.bin_label bins cluster_labels true <$> column f cnt in
    length bins = 4 ∧
    Forall (λ v, 1 ≤ Pd.bin_index bins true v ≤ 3) (column f cnt) ∧
    (∀ mn mx,
       Pd.min (column f cnt) = Some mn → Pd.max (column f cnt) = Some mx →
       ((mn < mx)%Z → Pd.bin_index bins true mn = 1 ∧ Pd.bin_index bins true mx = 3) ∧
       (mn = mx → Pd.bin_index bins true mn = 2)) ∧
    clustering_stage df σ =
      (Normal (),
       set_heap (<[df := {| rows := rows f; cnt_cluster := Some c |}]> (heap σ)) σ).
Proof.
  intros f Hne [Hrange Hlen].
  destruct (min_max_exist (column f cnt)) as (mn & mx & Hmin & Hmax & _).
  { unfold column. by intros ?%fmap_nil_inv. }
  destruct (binning_recovers (column f cnt) mn mx Hmin Hmax)
    as (b0 & b1 & b2 & b3 & _ & _ & _ & Hidx & Hcut & Hext).
  { unfold column. by apply Forall_fmap. }
  { unfold column. by rewrite length_fmap. }
  exists [Pd.Num b0; Pd.Num b1; Pd.Num b2; Pd.Num b3]. cbv zeta.
  split; [reflexivity|]. split; [exact Hidx|]. split.
  - intros mn' mx' Hmin' Hmax'.
    assert (mn' = mn) as -> by congruence. assert (mx' = mx) as -> by congruence.
    exact Hext.
  - unfold clustering_stage, try_except, mbind, M_bind, read, setitem_cnt_cluster,
      write, mbind, M_bind.
    fold f. destruct Hcut as [Hq|(e & Hq & He & Hc)].
    + rewrite Hq. reflexivity.
    + rewrite Hq. cbn. rewrite He. fold f. rewrite Hc. reflexivity.
Qed.

(** When both binnings raise, the handler's error leaves the stage. *)
Lemma clustering_stage_raises (σ : state) (df : loc) (e1 e2 : exn) :
  Pd.qcut (column (heap σ !!! df) cnt) 3 cluster_labels = Raise e1 →
  catches_ValueError e1 = true →
  Pd.cut (column (heap σ !!! df) cnt) 3 cluster_labels true = Raise e2 →
  clustering_stage df σ = (Raised e2, σ).
Proof.
  intros Hq He Hc.
  unfold clustering_stage, try_except, mbind, M_bind, read.
  rewrite Hq. cbn. rewrite He, Hc. reflexivity.
Qed.

(** C4, as stated, fails.  On a view of four days with the counts [2^53],
    [2^53 + 1], [2^53 + 2], [2^53 + 3] two of the four quantile edges are
    the same float64, and so are two of the four equal-width edges: both
    binnings raise, and the stage ends in the second [ValueError] without
    labelling any row. *)
Lemma large_counts_not_clustered_refuted :
  let σ := table_state large_days in
  rows (heap σ !!! 0) ≠ [] ∧
  Pd.qcut (column (heap σ !!! 0) cnt) 3 cluster_labels
    = Raise (ValueError "Bin edges must be unique") ∧
  Pd.cut (column (heap σ !!! 0) cnt) 3 cluster_labels true
    = Raise (ValueError "Bin edges must be unique") ∧
  clustering_stage 0 σ = (Raised (ValueError "Bin edges must be unique"), σ) ∧
  cnt_cluster (heap (clustering_stage 0 σ).2 !!! 0) = None.
Proof.
  cbn zeta.
  assert (Hq : Pd.qcut (column (heap (table_state large_days) !!! 0) cnt) 3
                 cluster_labels
               = Raise (ValueError "Bin edges must be unique"))
    by (vm_compute; reflexivity).
  assert (Hc : Pd.cut (column (heap (table_state large_days) !!! 0) cnt) 3
                 cluster_labels true
               = Raise (ValueError "Bin edges must be unique"))
    by (vm_compute; reflexivity).
  split; [vm_compute; discriminate|]. split; [exact Hq|]. split; [exact Hc|].
  rewrite (clustering_stage_raises _ _ _ _ Hq eq_refl Hc).
  split; reflexivity.
Qed.

(** C4 (amended).  On a non-empty view whose counts are in range (from 0 up
    to [2^32], fewer than [2^53] rows) the clustering stage gives every row
    exactly one label, one of the three cluster labels (Rendah, Sedang,
    Tinggi: low, medium, high, ranked 0, 1, 2), and a row with a smaller
    count never has a higher rank than a row with a larger count. *)
Theorem clustering_total_and_monotone (σ : state) (df : loc) :
  let view := rows (heap σ !!! df) in
  view ≠ [] → counts_in_range view →
  ∃ c σ',
    clustering_stage df σ = (Normal (), σ') ∧
    heap σ' !!! df = {| rows := view; cnt_cluster := Some c |} ∧
    length c = length view ∧
    (∀ i r, view !! i = Some r →
       ∃ s k, c !! i = Some (Some s) ∧ s ∈ cluster_labels ∧ cluster_rank s = Some k) ∧
    (∀ i j ri rj si sj ki kj,
       view !! i = Some ri → view !! j = Some rj →
       c !! i = Some (Some si) → c !! j = Some (Some sj) →
       cluster_rank si = Some ki → cluster_rank sj = Some kj →
       (cnt ri < cnt rj)%Z → ki ≤ kj).
Proof.
  intros view Hne Hrange.
  destruct (clustering_stage_run σ df Hne Hrange) as (bins & Hlen & Hidx & _ & Hrun).
  fold view in Hrun.
  set (c := Pd.bin_label bins cluster_labels true <$> column (heap σ !!! df) cnt) in *.
  assert (Hc : ∀ i r, view !! i = Some r →
               ∃ s, c !! i = Some (Some s) ∧ s ∈ cluster_labels ∧
                    cluster_rank s = Some (Pd.bin_index bins true (cnt r) - 1) ∧
                    1 ≤ Pd.bin_index bins true (cnt r)).
  { intros i r Hi. subst c. unfold column.
    rewrite !list_lookup_fmap. fold view. rewrite Hi. cbn.
    rewrite Forall_forall in Hidx.
    assert (Hr : 1 ≤ Pd.bin_index bins true (cnt r) ≤ 3).
    { apply Hidx. unfold column. apply list_elem_of_fmap_2.
      by eapply list_elem_of_lookup_2. }
    destruct (bin_label_rank bins (cnt r) Hlen Hr) as (s & -> & ? & ?).
    exists s. repeat split; try done. lia. }
  eexists c, _. split; [exact Hrun|]. cbn [heap set_heap].
  split; [by rewrite lookup_total_insert_eq|].
  split; [subst c; unfold column; by rewrite !length_fmap|].
  split.
  - intros i r Hi. destruct (Hc i r Hi) as (s & ? & ? & ? & _). eauto.
  - intros i j ri rj si sj ki kj Hi Hj Hci Hcj Hki Hkj Hlt.
    destruct (Hc i ri Hi) as (si' & Hci' & _ & Hki' & Hi1).
    destruct (Hc j rj Hj) as (sj' & Hcj' & _ & Hkj' & Hj1).
    assert (si' = si) as -> by congruence.
    assert (sj' = sj) as -> by congruence.
    assert (ki = Pd.bin_index bins true (cnt ri) - 1) as -> by congruence.
    assert (kj = Pd.bin_index bins true (cnt rj) - 1) as -> by congruence.
    pose proof (bin_index_mono bins true _ _ Hlt). lia.
Qed.

Lemma clustering_total_and_monotone_witness :
  let σ := (load_data "day.csv" (init sample_files)).2 in
  ∃ c σ',
    clustering_stage 0 σ = (Normal (), σ') ∧
    heap σ' !!! 0 = {| rows := rows (heap σ !!! 0); cnt_cluster := Some c |} ∧
    length c = 3.
Proof.
  destruct (clustering_total_and_monotone
              (load_data "day.csv" (init sample_files)).2 0)
    as (c & σ' & Hrun & Hheap & Hlen & _).
  - vm_compute. discriminate.
  - apply (bool_decide_unpack _). vm_compute. exact I.
  - exists c, σ'. split; [exact Hrun|]. split; [exact Hheap|]. exact Hlen.
Defined.

(** *** The clustering stage on an empty view *)

(** On an empty view quantile binning raises (all four edges are [NaN]),
    the handler's equal-width binning raises too, and that second
    [ValueError] leaves the stage. *)
Lemma clustering_stage_empty (σ : state) (df : loc) :
  rows (heap σ !!! df) = [] →
  clustering_stage df σ = (Raised (ValueError "Cannot cut empty array"), σ).
Proof.
  intros Hnil.
  assert (Hq : Pd.qcut [] 3 cluster_labels =
               Raise (ValueError "Bin edges must be unique")) by by vm_compute.
  assert (Hc : Pd.cut [] 3 cluster_labels true =
               Raise (ValueError "Cannot cut empty array")) by by vm_compute.
  unfold clustering_stage, try_except, mbind, M_bind, read, column.
  rewrite Hnil. change (cnt <$> []) with (@nil Z). rewrite Hq. cbn.
  rewrite Hnil. change (cnt <$> []) with (@nil Z). rewrite Hc. reflexivity.
Qed.

(** A view in which nine days of ten share one count: quantile binning
    raises, equal-width binning labels every day. *)
Example mostly_equal_counts_fall_back :
  let xs := [5; 5; 5; 5; 5; 5; 5; 5; 5; 9]%Z in
  Pd.qcut xs 3 cluster_labels = Raise (ValueError "Bin edges must be unique") ∧
  Pd.cut xs 3 cluster_labels true =
    Ok (replicate 9 (Some "Rendah") ++ [Some "Tinggi"]).
Proof. by vm_compute. Qed.

(** C3, at the failing input.  On the empty view quantile binning is
    infeasible and the stage does not recover: the fallback raises and the
    error propagates. *)
Theorem empty_view_fallback_raises :
  let σ := {| heap := {[ 0 := {| rows := []; cnt_cluster := None |} ]};
              cache := ∅; files := ∅; page := [] |} in
  Pd.qcut (column (heap σ !!! 0) cnt) 3 cluster_labels
    = Raise (ValueError "Bin edges must be unique") ∧
  Pd.cut (column (heap σ !!! 0) cnt) 3 cluster_labels true
    = Raise (ValueError "Cannot cut empty array") ∧
  clustering_stage 0 σ = (Raised (ValueError "Cannot cut empty array"), σ).
Proof.
  cbn zeta. split; [by vm_compute|]. split; [by vm_compute|].
  by apply clustering_stage_empty.
Qed.

(** C2, at the failing input.  The table holds one spring day of 2011; the
    user picks the year 2011 and the season Summer, both offered by the
    sidebar.  The view is empty: the count metric is 0 and the first four
    charts are drawn, but the run ends in an unhandled [ValueError] raised
    by the clustering stage, and the two cluster charts are never drawn. *)
Theorem empty_view_run_raises :
  let run := app (Tahun 2011) ["Summer"] (init spring_files) in
  Tahun 2011 ∈ tahun_options {| rows := load_row <$> [mkraw 2011 1 1 1 1 0 100];
                                 cnt_cluster := None |} ∧
  "Summer" ∈ musim_options ∧
  run.1 = Raised (ValueError "Cannot cut empty array") ∧
  List.filter is_metric (page run.2) =
    [StMetric "Total Hari" (MCount 0);
     StMetric "Rata-rata Peminjaman / Hari" (MFloat Pd.NaN);
     StMetric "Maksimum Peminjaman / Hari" (MInt None);
     StMetric "Minimum Peminjaman / Hari" (MInt None)] ∧
  List.filter is_chart (page run.2) =
    [StPyplot (Scatterplot [] []); StPyplot (Scatterplot [] []);
     StPyplot (Boxplot [] []); StPyplot (Lineplot [] [])].
Proof.
  cbn zeta. split; [|split; [|split; [|split]]].
  - vm_compute. apply list_elem_of_further, list_elem_of_here.
  - vm_compute. apply list_elem_of_further, list_elem_of_here.
  - by vm_compute.
  - by vm_compute.
  - by vm_compute.
Qed.

(** ** The specification's concrete scenario *)

(** Two days, (2011, Spring, 100) and (2012, Summer, 200); the year 2011
    and the season Spring leave one row with count 100: the count metric
    is 1 and mean, maximum and minimum are all 100. *)
Example two_day_scenario :
  let fs : gmap string (list RawRow) :=
    {[ "day.csv" := [mkraw 2011 1 1 1 1 0 100; mkraw 2012 6 1 2 1 1 200] ]} in
  let run := app (Tahun 2011) ["Spring"] (init fs) in
  run.1 = Normal () ∧
  List.filter is_metric (page run.2) =
    [StMetric "Total Hari" (MCount 1);
     StMetric "Rata-rata Peminjaman / Hari" (MFloat (Pd.Num (100 # 1)));
     StMetric "Maksimum Peminjaman / Hari" (MInt (Some 100%Z));
     StMetric "Minimum Peminjaman / Hari" (MInt (Some 100%Z))] ∧
  length (List.filter is_chart (page run.2)) = 6.
Proof. by vm_compute. Qed.

(** * Further properties of the script *)

(** ** The sidebar's year options (line 47) *)

Lemma sorted_nodup_strict (l : list Z) :
  StronglySorted Z.le l → NoDup l → StronglySorted Z.lt l.
Proof.
  induction 1 as [|x l Hl IH Hx]; intros Hnd; [constructor|].
  apply NoDup_cons in Hnd as [Hx' Hnd].
  constructor; [by apply IH|].
  rewrite Forall_forall in Hx |- *. intros y Hy.
  specialize (Hx y Hy). assert (x ≠ y) by (intros ->; done). lia.
Qed.

(** [sorted(s.unique())]: strictly ascending, with the elements of [s]. *)
Lemma sorted_unique_spec (l : list Z) :
  StronglySorted Z.lt (merge_sort Z.le (remove_dups l)) ∧
  ∀ y, y ∈ merge_sort Z.le (remove_dups l) ↔ y ∈ l.
Proof.
  split.
  - apply sorted_nodup_strict; [apply StronglySorted_merge_sort; apply _|].
    rewrite merge_sort_Permutation. apply NoDup_remove_dups.
  - intros y. rewrite merge_sort_Permutation. apply elem_of_remove_dups.
Qed.

(** X1. The year selector offers "All" first and then the years of the
    table, each once, in ascending order: a year is offered exactly when
    some row of the table has it. *)
Theorem tahun_options_spec (f : frame) :
  ∃ ys,
    tahun_options f = All :: (Tahun <$> ys) ∧
    StronglySorted Z.lt ys ∧
    (∀ y, y ∈ ys ↔ ∃ r, r ∈ rows f ∧ year r = y) ∧
    NoDup (tahun_options f).
Proof.
  destruct (sorted_unique_spec (column f year)) as [Hsorted Hin].
  exists (merge_sort Z.le (remove_dups (column f year))).
  split; [reflexivity|]. split; [exact Hsorted|]. split.
  - intros y. rewrite Hin. unfold column. rewrite list_elem_of_fmap.
    split; intros (r & ? & ?); exists r; done.
  - unfold tahun_options. apply NoDup_cons. split.
    + intros (y & [=] & _)%list_elem_of_fmap.
    + assert (Inj (=) (=) Tahun) by (intros ? ? [=]; done).
      apply (NoDup_fmap_2 _). rewrite merge_sort_Permutation.
      apply NoDup_remove_dups.
Qed.

(** ** The monthly trend (line 133) *)

Lemma getitem_mask_columns {A B C} (g : A → B) (h : A → C) (p : C → bool) (l : list A) :
  Pd.getitem_mask (g <$> l) (p <$> (h <$> l)) = g <$> filter (λ x, p (h x)) l.
Proof.
  induction l as [|x l IH]; [reflexivity|].
  csimpl. rewrite IH. destruct (p (h x)) eqn:Hp.
  - rewrite filter_cons_True; [reflexivity | rewrite Hp; exact I].
  - rewrite filter_cons_False; [reflexivity | rewrite Hp; intros []].
Qed.

Lemma sum_abs_filter {A} (g : A → Z) (P : A → Prop) `{∀ x, Decision (P x)}
    (l : list A) :
  (Pd.sum (Z.abs <$> (g <$> filter P l)) ≤ Pd.sum (Z.abs <$> (g <$> l)))%Z.
Proof.
  induction l as [|x l IH]; [done|].
  rewrite (fmap_cons g), fmap_cons, sum_cons.
  destruct (decide (P x)).
  - rewrite filter_cons_True by done. rewrite (fmap_cons g), fmap_cons, sum_cons. lia.
  - rewrite filter_cons_False by done. lia.
Qed.

(** X2. The monthly trend has one point per month that occurs in the
    view, months in strictly ascending order; the value at a month is the
    group mean of the counts of the view's rows of that month, a number
    (never NaN).  When the view has fewer than [2^53] rows and its counts
    add up, in absolute value, to less than [2^53], the value lies within
    any bounds of the view's counts. *)
Theorem monthly_trend_spec (f : frame) :
  let monthly := groupby_mean (column f month) (column f cnt) in
  StronglySorted Z.lt monthly.*1 ∧
  (∀ m, m ∈ monthly.*1 ↔ ∃ r, r ∈ rows f ∧ month r = m) ∧
  (∀ m v, (m, v) ∈ monthly →
     v = Pd.group_mean (cnt <$> filter (λ r, month r = m) (rows f)) ∧
     ∃ q, v = Pd.Num q ∧
          ((Pd.sum (Z.abs <$> column f cnt) < 2 ^ 53)%Z →
           (Z.of_nat (length (rows f)) < 2 ^ 53)%Z →
           ∀ lo hi, Forall (λ r, (lo ≤ cnt r ≤ hi)%Z) (rows f) →
                    (inject_Z lo <= q)%Q ∧ (q <= inject_Z hi)%Q)).
Proof.
  cbn zeta. unfold groupby_mean.
  destruct (sorted_unique_spec (column f month)) as [Hsorted Hin].
  set (keys := merge_sort Z.le (remove_dups (column f month))) in *.
  assert (Hfst : ((λ k, (k, Pd.group_mean (Pd.getitem_mask (column f cnt)
                    ((λ k', (k' =? k)%Z) <$> column f month)))) <$> keys).*1 = keys).
  { rewrite <- list_fmap_compose. apply list_fmap_id. }
  rewrite Hfst. split; [exact Hsorted|]. split.
  - intros m. rewrite Hin. unfold column. rewrite list_elem_of_fmap.
    split; intros (r & ? & ?); exists r; done.
  - intros m v (k & [= -> ->] & Hk)%list_elem_of_fmap.
    unfold column. rewrite getitem_mask_columns.
    assert (Hfilter : filter (λ r, (month r =? k)%Z) (rows f)
                      = filter (λ r, month r = k) (rows f)).
    { apply list_filter_iff. intros r. rewrite Is_true_true. apply Z.eqb_eq. }
    rewrite Hfilter. split; [reflexivity|].
    apply Hin in Hk. unfold column in Hk.
    apply list_elem_of_fmap in Hk as (r & Hr & Hrin).
    set (group := filter (λ r, month r = k) (rows f)).
    assert (Hgroup : r ∈ group) by (apply list_elem_of_filter; done).
    assert (Hne : cnt <$> group ≠ []).
    { intros Hnil%fmap_nil_inv. rewrite Hnil in Hgroup. by apply elem_of_nil in Hgroup. }
    assert (Hnum : ∃ q, Pd.group_mean (cnt <$> group) = Pd.Num q).
    { destruct (cnt <$> group); [done|]. eexists. reflexivity. }
    destruct Hnum as (q & Hq). exists q. split; [exact Hq|].
    intros Hsum Hlen lo hi Hall.
    assert (Hsum' : (Pd.sum (Z.abs <$> (cnt <$> group)) < 2 ^ 53)%Z).
    { pose proof (sum_abs_filter cnt (λ r, month r = k) (rows f)). fold group in H.
      lia. }
    assert (Hlen' : (Z.of_nat (length (cnt <$> group)) < 2 ^ 53)%Z).
    { rewrite length_fmap. pose proof (length_filter (λ r, month r = k) (rows f)).
      fold group in H. lia. }
    rewrite group_mean_mean in Hq by exact Hsum'.
    destruct (mean_between_min_max (cnt <$> group) Hne Hsum' Hlen')
      as (mn & me & mx & Hmin & Hme & Hmax & _ & Hlo & Hhi).
    rewrite Hq in Hme. injection Hme as <-.
    pose proof (min_in _ _ Hmin) as Hmn. pose proof (max_in _ _ Hmax) as Hmx.
    apply list_elem_of_fmap in Hmn as (rmn & -> & [_ Hrmn]%list_elem_of_filter).
    apply list_elem_of_fmap in Hmx as (rmx & -> & [_ Hrmx]%list_elem_of_filter).
    rewrite Forall_forall in Hall.
    pose proof (Hall _ Hrmn). pose proof (Hall _ Hrmx).
    split.
    + eapply Qle_trans; [|exact Hlo]. apply inject_Z_le. lia.
    + eapply Qle_trans; [exact Hhi|]. apply inject_Z_le. lia.
Qed.

(** ** The loader cache (lines 16 and 36) *)

(** A call for a cached path does not read the file: it returns a new
    object with the contents of the snapshot. *)
Lemma load_data_hit (σ : state) (path : string) (s : loc) :
  cache σ !! path = Some s →
  load_data path σ =
    (Normal (fresh (dom (heap σ))),
     set_heap (<[fresh (dom (heap σ)) := heap σ !!! s]> (heap σ)) σ).
Proof. intros Hc. unfold load_data, cache_data. rewrite Hc. reflexivity. Qed.

Lemma load_data_page (σ σ1 : state) (path : string) (l : loc) :
  load_data path σ = (Normal l, σ1) → page σ1 = page σ.
Proof.
  unfold load_data, cache_data, load_data_body, read_csv, mbind, M_bind, read, alloc.
  destruct (cache σ !! path) as [s|] eqn:Hc; [by intros [= <- <-]|].
  destruct (files σ !! path) as [raw|]; cbn; [|discriminate].
  by intros [= <- <-].
Qed.

Lemma app_loaded (σ σ1 : state) (df_raw : loc) tahun musim :
  load_data "day.csv" σ = (Normal df_raw, σ1) →
  app tahun musim σ = dashboard df_raw tahun musim σ1.
Proof.
  intros Hload. unfold app, load_or_stop, try_except, mbind, M_bind.
  by rewrite Hload.
Qed.

(** X3. Once the loader has read the file of a path, the next call for
    that path does not read the file again, also when the file has changed
    or disappeared in between: it returns a new table object with the rows
    the first call returned, and changes neither an existing object nor
    the cache, the files or the page. *)
Theorem loaded_table_served_from_cache (σ : state) (path : string)
    (raw : list RawRow) (fs' : gmap string (list RawRow)) :
  cache σ !! path = None → files σ !! path = Some raw →
  let σ1 := (load_data path σ).2 in
  ∃ l' σ2,
    load_data path (set_files fs' σ1) = (Normal l', σ2) ∧
    heap σ1 !! l' = None ∧
    heap σ2 !! l' = Some {| rows := load_row <$> raw; cnt_cluster := None |} ∧
    heap σ1 ⊆ heap σ2 ∧ cache σ2 = cache σ1 ∧ files σ2 = fs' ∧ page σ2 = page σ1.
Proof.
  intros Hc Hf. cbn zeta.
  destruct (load_data_first σ path raw Hc Hf)
    as (l & s & σ1 & -> & _ & _ & Hcs & Hs & _ & _).
  cbn [snd].
  rewrite (load_data_hit (set_files fs' σ1) path s) by exact Hcs.
  eexists _, _. split; [reflexivity|]. cbn.
  assert (Hfresh : heap σ1 !! fresh (dom (heap σ1)) = None)
    by apply not_elem_of_dom, is_fresh.
  split; [exact Hfresh|].
  split; [by rewrite lookup_insert_eq, (lookup_total_correct _ _ _ Hs)|].
  split; [by apply insert_subseteq|]. done.
Qed.

Lemma loaded_table_served_from_cache_witness :
  let σ1 := (load_data "day.csv" (init sample_files)).2 in
  ∃ l' σ2,
    load_data "day.csv" (set_files ∅ σ1) = (Normal l', σ2) ∧
    heap σ1 !! l' = None ∧
    heap σ2 !! l' = Some {| rows := load_row <$> sample_days; cnt_cluster := None |}.
Proof.
  destruct (loaded_table_served_from_cache (init sample_files) "day.csv"
              sample_days ∅) as (l' & σ2 & H1 & H2 & H3 & _).
  - reflexivity.
  - reflexivity.
  - exists l', σ2. split; [exact H1|]. split; [exact H2 | exact H3].
Defined.

(** *** No stage calls [st.stop()] *)

Lemma never_stops_ret {A} (a : A) : never_stops (mret a).
Proof. intros σ. discriminate. Qed.

Lemma never_stops_bind {A B} (m : M A) (k : A → M B) :
  never_stops m → (∀ a, never_stops (k a)) → never_stops (m ≫= k).
Proof.
  intros Hm Hk σ. specialize (Hm σ). unfold mbind, M_bind.
  destruct (m σ) as [[a|e|] σ1]; cbn in *; [apply Hk | discriminate | done].
Qed.

Lemma never_stops_alloc (f : frame) : never_stops (alloc f).
Proof. intros σ. discriminate. Qed.

Lemma never_stops_read (l : loc) : never_stops (read l).
Proof. intros σ. discriminate. Qed.

Lemma never_stops_write (l : loc) (f : frame) : never_stops (write l f).
Proof. intros σ. discriminate. Qed.

Lemma never_stops_emit (e : element) : never_stops (st_emit e).
Proof. intros σ. discriminate. Qed.

Lemma never_stops_raise {A} (e : exn) : never_stops (raise (A := A) e).
Proof. intros σ. discriminate. Qed.

Lemma never_stops_lift {A} (r : result A) : never_stops (lift r).
Proof. destruct r; [apply never_stops_ret | apply never_stops_raise]. Qed.

Lemma never_stops_try_except {A} (body handler : M A) catches :
  never_stops body → never_stops handler →
  never_stops (try_except body catches handler).
Proof.
  intros Hb Hh σ. specialize (Hb σ). unfold try_except.
  destruct (body σ) as [[a|e|] σ1]; cbn in *; [discriminate| |done].
  destruct (catches e); [apply Hh | discriminate].
Qed.

Ltac stops_step :=
  lazymatch goal with
  | |- never_stops (mbind _ _) => apply never_stops_bind; [ | intros ? ]
  | |- never_stops (st_emit _) => apply never_stops_emit
  | |- never_stops (read _) => apply never_stops_read
  | |- never_stops (alloc _) => apply never_stops_alloc
  | |- never_stops (write _ _) => apply never_stops_write
  | |- never_stops (lift _) => apply never_stops_lift
  | |- never_stops (raise _) => apply never_stops_raise
  | |- never_stops (mret _) => apply never_stops_ret
  end.

Lemma never_stops_getitem_cnt_cluster (df : loc) :
  never_stops (getitem_cnt_cluster df).
Proof.
  unfold getitem_cnt_cluster. stops_step; [stops_step|].
  destruct (cnt_cluster _); stops_step.
Qed.

Lemma never_stops_filter_stage (df : loc) tahun musim :
  never_stops (filter_stage df tahun musim).
Proof. unfold filter_stage. destruct tahun; repeat stops_step. Qed.

Lemma never_stops_clustering_stage (df : loc) : never_stops (clustering_stage df).
Proof.
  unfold clustering_stage, setitem_cnt_cluster.
  apply never_stops_try_except; repeat stops_step.
Qed.

Lemma never_stops_cluster_charts (df : loc) : never_stops (cluster_charts df).
Proof.
  unfold cluster_charts.
  repeat lazymatch goal with
         | |- never_stops (getitem_cnt_cluster _) =>
             apply never_stops_getitem_cnt_cluster
         | |- _ => stops_step
         end.
Qed.

Lemma never_stops_metrics_panel (df : loc) : never_stops (metrics_panel df).
Proof. unfold metrics_panel. repeat stops_step. Qed.

Lemma never_stops_visualization_stage (df : loc) :
  never_stops (visualization_stage df).
Proof. unfold visualization_stage. cbv zeta. repeat stops_step. Qed.

Lemma never_stops_copy (l : loc) : never_stops (copy l).
Proof. unfold copy. repeat stops_step. Qed.

(** After loading, the script never reaches [st.stop()]. *)
Lemma never_stops_dashboard (df_raw : loc) tahun musim :
  never_stops (dashboard df_raw tahun musim).
Proof.
  unfold dashboard.
  repeat lazymatch goal with
         | |- never_stops (copy _) => apply never_stops_copy
         | |- never_stops (filter_stage _ _ _) => apply never_stops_filter_stage
         | |- never_stops (metrics_panel _) => apply never_stops_metrics_panel
         | |- never_stops (visualization_stage _) =>
             apply never_stops_visualization_stage
         | |- never_stops (clustering_stage _) => apply never_stops_clustering_stage
         | |- never_stops (cluster_charts _) => apply never_stops_cluster_charts
         | |- _ => stops_step
         end.
Qed.

(** X4. After a run that read [day.csv], the next run does not read the
    file, whatever the user chose in the first run and whatever happened
    to the file since: its loader returns a new table object with the rows
    the first run loaded, and the run does not stop on a missing file. *)
Theorem next_run_loads_from_cache (σ : state) (raw : list RawRow) tahun musim
    (fs' : gmap string (list RawRow)) :
  cache σ !! "day.csv" = None → files σ !! "day.csv" = Some raw →
  let σ' := set_files fs' (app tahun musim σ).2 in
  (∃ l σ2,
     load_or_stop σ' = (Normal l, σ2) ∧
     heap σ' !! l = None ∧
     heap σ2 !! l = Some {| rows := load_row <$> raw; cnt_cluster := None |}) ∧
  ∀ tahun2 musim2, (app tahun2 musim2 σ').1 ≠ Stopped.
Proof.
  intros Hc Hf. cbn zeta.
  destruct (load_data_first σ "day.csv" raw Hc Hf)
    as (l & s & σ1 & Hload & _ & _ & Hcs & Hs & _ & _).
  rewrite (app_loaded _ _ _ _ _ Hload).
  destruct (keeps_dashboard (heap σ1) l tahun musim σ1) as (Hh & Hcache & _);
    [done|].
  set (σe := (dashboard l tahun musim σ1).2) in *.
  assert (Hcs' : cache (set_files fs' σe) !! "day.csv" = Some s)
    by (cbn; by rewrite Hcache).
  assert (Hs' : heap σe !! s = Some {| rows := load_row <$> raw; cnt_cluster := None |})
    by by eapply lookup_weaken.
  assert (Hrun : load_or_stop (set_files fs' σe) =
                 (Normal (fresh (dom (heap σe))),
                  set_heap (<[fresh (dom (heap σe)) := heap σe !!! s]> (heap σe))
                    (set_files fs' σe))).
  { unfold load_or_stop, try_except.
    by rewrite (load_data_hit (set_files fs' σe) "day.csv" s Hcs'). }
  split.
  - eexists _, _. split; [exact Hrun|]. cbn.
    split; [apply not_elem_of_dom, is_fresh|].
    by rewrite lookup_insert_eq, (lookup_total_correct _ _ _ Hs').
  - intros tahun2 musim2. unfold app, mbind, M_bind. rewrite Hrun.
    apply never_stops_dashboard.
Qed.

Lemma next_run_loads_from_cache_witness :
  let σ' := set_files ∅ (app (Tahun 2012) ["Summer"] (init sample_files)).2 in
  ∃ l σ2,
    load_or_stop σ' = (Normal l, σ2) ∧
    heap σ2 !! l = Some {| rows := load_row <$> sample_days; cnt_cluster := None |}.
Proof.
  destruct (next_run_loads_from_cache (init sample_files) sample_days
              (Tahun 2012) ["Summer"] ∅) as [(l & σ2 & H1 & _ & H2) _].
  - reflexivity.
  - reflexivity.
  - exists l, σ2. split; [exact H1 | exact H2].
Defined.

(** ** A whole run *)

Lemma bind_normal {A B} (m : M A) (k : A → M B) (σ σ' : state) (a : A) :
  m σ = (Normal a, σ') → (m ≫= k) σ = k a σ'.
Proof. intros Hm. unfold mbind, M_bind. by rewrite Hm. Qed.

Lemma bind_raised {A B} (m : M A) (k : A → M B) (σ σ' : state) (e : exn) :
  m σ = (Raised e, σ') → (m ≫= k) σ = (Raised e, σ').
Proof. intros Hm. unfold mbind, M_bind. by rewrite Hm. Qed.

Lemma emit_run (e : element) (σ : state) :
  st_emit e σ = (Normal (), set_page (page σ ++ [e]) σ).
Proof. reflexivity. Qed.

Lemma read_run (l : loc) (σ : state) : read l σ = (Normal (heap σ !!! l), σ).
Proof. reflexivity. Qed.

Lemma set_page_twice (p q : list element) (σ : state) :
  set_page p (set_page q σ) = set_page p σ.
Proof. reflexivity. Qed.

Lemma page_set_page (p : list element) (σ : state) : page (set_page p σ) = p.
Proof. reflexivity. Qed.

Lemma heap_set_page (p : list element) (σ : state) : heap (set_page p σ) = heap σ.
Proof. reflexivity. Qed.

(** Run the statements of a straight-line block one by one. *)
Ltac run_step :=
  first [ erewrite bind_normal by apply emit_run
        | erewrite bind_normal by apply read_run ];
  cbv beta zeta;
  rewrite ?set_page_twice, ?page_set_page, ?heap_set_page.

Ltac tidy_page :=
  rewrite ?emit_run, ?set_page_twice, ?page_set_page, ?heap_set_page,
    ?set_page_twice, ?page_set_page, <- ?app_assoc.

Lemma metrics_panel_run (σ : state) (df : loc) :
  let view := rows (heap σ !!! df) in
  metrics_panel df σ =
    (Normal (),
     set_page (page σ ++
       [StMetric "Total Hari" (MCount (length view));
        StMetric "Rata-rata Peminjaman / Hari" (MFloat (Pd.mean (cnt <$> view)));
        StMetric "Maksimum Peminjaman / Hari" (MInt (Pd.max (cnt <$> view)));
        StMetric "Minimum Peminjaman / Hari" (MInt (Pd.min (cnt <$> view)))]) σ).
Proof.
  unfold metrics_panel, column. repeat run_step. tidy_page. reflexivity.
Qed.

Lemma visualization_stage_run (σ : state) (df : loc) :
  let view := rows (heap σ !!! df) in
  visualization_stage df σ =
    (Normal (),
     set_page (page σ ++
       [StText; StText;
        StPyplot (Scatterplot (temp <$> view) (cnt <$> view));
        StText;
        StPyplot (Scatterplot (hum <$> view) (cnt <$> view));
        StText; StDivider;
        StText;
        StPyplot (Boxplot (workingday_label <$> view) (cnt <$> view));
        StText; StDivider;
        StText;
        StPyplot (Lineplot (groupby_mean (month <$> view) (cnt <$> view)).*1
                           (groupby_mean (month <$> view) (cnt <$> view)).*2);
        StText; StDivider]) σ).
Proof.
  unfold visualization_stage, column. repeat run_step. tidy_page. reflexivity.
Qed.

Lemma getitem_cnt_cluster_run (σ : state) (df : loc) (c : list (option string)) :
  cnt_cluster (heap σ !!! df) = Some c →
  getitem_cnt_cluster df σ = (Normal c, σ).
Proof.
  intros Hc. unfold getitem_cnt_cluster. run_step. by rewrite Hc.
Qed.

Lemma cluster_charts_run (σ : state) (df : loc) (c : list (option string)) :
  cnt_cluster (heap σ !!! df) = Some c →
  cluster_charts df σ =
    (Normal (),
     set_page (page σ ++
       [StText; StPyplot (Countplot c); StText;
        StPyplot (Barplot (season <$> rows (heap σ !!! df))
                          (cnt <$> rows (heap σ !!! df)) c);
        StText; StDivider]) σ).
Proof.
  intros Hc. unfold cluster_charts, column.
  repeat first
    [ run_step
    | erewrite bind_normal
        by (apply getitem_cnt_cluster_run; rewrite ?heap_set_page; exact Hc);
      cbv beta zeta ].
  tidy_page. reflexivity.
Qed.

Lemma copy_run (l : loc) (σ : state) :
  copy l σ = (Normal (fresh (dom (heap σ))),
              set_heap (<[fresh (dom (heap σ)) := heap σ !!! l]> (heap σ)) σ).
Proof. reflexivity. Qed.

Lemma page_set_heap (h : gmap loc frame) (σ : state) : page (set_heap h σ) = page σ.
Proof. reflexivity. Qed.

Lemma heap_set_heap (h : gmap loc frame) (σ : state) : heap (set_heap h σ) = h.
Proof. reflexivity. Qed.

(** The dashboard from the loaded table on: it raises on an empty view
    after writing the page up to the clustering header, and completes on
    a non-empty one with counts in range. *)
Lemma dashboard_run (σ : state) (df_raw : loc) tahun musim :
  let view := filter (selected tahun musim) (rows (heap σ !!! df_raw)) in
  (view = [] →
   ∃ σ', dashboard df_raw tahun musim σ
           = (Raised (ValueError "Cannot cut empty array"), σ') ∧
         page σ' = page σ ++ page_before_clustering view) ∧
  (view ≠ [] → counts_in_range view →
   ∃ c σ', dashboard df_raw tahun musim σ = (Normal (), σ') ∧
           page σ' = page σ ++ page_before_clustering view
                            ++ page_after_clustering view c ∧
           length c = length view ∧
           Forall (λ o, ∃ s, o = Some s ∧ s ∈ cluster_labels) c).
Proof.
  intros view. unfold dashboard.
  erewrite bind_normal by apply copy_run. cbv beta.
  set (l1 := fresh (dom (heap σ))).
  set (σa := set_heap (<[l1 := heap σ !!! df_raw]> (heap σ)) σ).
  assert (Hpa : page σa = page σ) by reflexivity.
  assert (Hha : heap σa !!! l1 = heap σ !!! df_raw)
    by (subst σa; rewrite heap_set_heap; apply lookup_total_insert_eq).
  clearbody σa l1.
  run_step.
  match goal with
  | |- context [mbind _ (filter_stage l1 tahun musim) ?s] =>
      destruct (filter_stage_run s l1 tahun musim)
        as (df & σc & Hrun & _ & Hpage & Hrows)
  end.
  rewrite page_set_page in Hpage. rewrite heap_set_page, Hha in Hrows.
  fold view in Hrows.
  split.
  - intros Hnil.
    erewrite bind_normal by exact Hrun. cbv beta.
    do 2 run_step.
    erewrite bind_normal by apply metrics_panel_run. cbv beta zeta.
    rewrite ?set_page_twice, ?page_set_page, ?heap_set_page.
    run_step.
    erewrite bind_normal by apply visualization_stage_run. cbv beta zeta.
    rewrite ?set_page_twice, ?page_set_page, ?heap_set_page.
    run_step.
    erewrite bind_raised
      by (apply clustering_stage_empty; rewrite heap_set_page, Hrows; exact Hnil).
    eexists. split; [reflexivity|].
    rewrite page_set_page, Hpage, Hpa, Hrows, <- !app_assoc. reflexivity.
  - intros Hne Hrange.
    erewrite bind_normal by exact Hrun. cbv beta.
    do 2 run_step.
    erewrite bind_normal by apply metrics_panel_run. cbv beta zeta.
    rewrite ?set_page_twice, ?page_set_page, ?heap_set_page.
    run_step.
    erewrite bind_normal by apply visualization_stage_run. cbv beta zeta.
    rewrite ?set_page_twice, ?page_set_page, ?heap_set_page.
    run_step. rewrite !Hrows.
    match goal with
    | |- context [mbind _ (clustering_stage df) ?s] =>
        destruct (clustering_stage_run s df) as (bins & Hlen & Hidx & _ & Hcl)
    end.
    { rewrite heap_set_page, Hrows. exact Hne. }
    { rewrite heap_set_page, Hrows. exact Hrange. }
    rewrite heap_set_page in Hidx, Hcl. unfold column in Hidx, Hcl.
    rewrite Hrows in Hidx, Hcl.
    erewrite bind_normal by exact Hcl. cbv beta.
    set (c := Pd.bin_label bins cluster_labels true <$> (cnt <$> view)) in *.
    erewrite bind_normal
      by (apply (cluster_charts_run _ _ c);
          rewrite heap_set_heap, lookup_total_insert_eq; reflexivity).
    cbv beta.
    rewrite page_set_heap, page_set_page, heap_set_heap, lookup_total_insert_eq.
    cbn [rows].
    run_step. rewrite emit_run.
    exists c. eexists. split; [reflexivity|].
    rewrite !page_set_page, Hpage, Hpa, <- !app_assoc.
    split; [reflexivity|].
    split; [subst c; by rewrite !length_fmap|].
    subst c. rewrite !Forall_fmap. rewrite Forall_fmap in Hidx.
    eapply Forall_impl; [exact Hidx|]. intros r Hr. cbn in *.
    destruct (bin_label_rank bins (cnt r) Hlen Hr) as (s & -> & ? & _). eauto.
Qed.

(** X5. Once the table is loaded, a run over a non-empty view with counts
    in range (from 0 up to [2^32], fewer than [2^53] rows) completes
    normally; a run over an empty view ends in the unhandled [ValueError]
    "Cannot cut empty array". *)
Theorem run_outcome (σ σ1 : state) (df_raw : loc) tahun musim :
  load_data "day.csv" σ = (Normal df_raw, σ1) →
  let view := filter (selected tahun musim) (rows (heap σ1 !!! df_raw)) in
  (view ≠ [] → counts_in_range view → (app tahun musim σ).1 = Normal ()) ∧
  (view = [] →
   (app tahun musim σ).1 = Raised (ValueError "Cannot cut empty array")).
Proof.
  intros Hload view. rewrite (app_loaded _ _ _ _ _ Hload).
  destruct (dashboard_run σ1 df_raw tahun musim) as [Hempty Hfull].
  split.
  - intros Hne Hrange. destruct (Hfull Hne Hrange) as (c & σ' & -> & _). reflexivity.
  - intros Hnil. destruct (Hempty Hnil) as (σ' & -> & _). reflexivity.
Qed.

Lemma run_outcome_witness :
  (app (Tahun 2012) ["Summer"] (init sample_files)).1 = Normal ().
Proof.
  apply (run_outcome (init sample_files)
           (load_data "day.csv" (init sample_files)).2 0 (Tahun 2012) ["Summer"]).
  - vm_compute. reflexivity.
  - vm_compute. discriminate.
  - apply (bool_decide_unpack _). vm_compute. exact I.
Defined.

(** X6. A run over a non-empty view with counts in range adds to the page exactly four metrics
    (row count, mean, maximum, minimum of the view's counts) and exactly
    six charts, in this order: temperature scatter, humidity scatter, box
    plot by working-day label, monthly line, cluster count plot, season
    bar plot; all are drawn from the columns of the filtered view, and the
    cluster column they use holds one of the three labels for each row. *)
Theorem completed_run_page (σ σ1 : state) (df_raw : loc) tahun musim :
  load_data "day.csv" σ = (Normal df_raw, σ1) →
  let view := filter (selected tahun musim) (rows (heap σ1 !!! df_raw)) in
  view ≠ [] → counts_in_range view →
  let σ' := (app tahun musim σ).2 in
  let monthly := groupby_mean (month <$> view) (cnt <$> view) in
  ∃ c,
    length c = length view ∧
    Forall (λ o, ∃ s, o = Some s ∧ s ∈ cluster_labels) c ∧
    List.filter is_metric (page σ') =
      List.filter is_metric (page σ) ++
      [StMetric "Total Hari" (MCount (length view));
       StMetric "Rata-rata Peminjaman / Hari" (MFloat (Pd.mean (cnt <$> view)));
       StMetric "Maksimum Peminjaman / Hari" (MInt (Pd.max (cnt <$> view)));
       StMetric "Minimum Peminjaman / Hari" (MInt (Pd.min (cnt <$> view)))] ∧
    List.filter is_chart (page σ') =
      List.filter is_chart (page σ) ++
      [StPyplot (Scatterplot (temp <$> view) (cnt <$> view));
       StPyplot (Scatterplot (hum <$> view) (cnt <$> view));
       StPyplot (Boxplot (workingday_label <$> view) (cnt <$> view));
       StPyplot (Lineplot monthly.*1 monthly.*2);
       StPyplot (Countplot c);
       StPyplot (Barplot (season <$> view) (cnt <$> view) c)].
Proof.
  intros Hload view Hne Hrange. cbn zeta. rewrite (app_loaded _ _ _ _ _ Hload).
  destruct (dashboard_run σ1 df_raw tahun musim) as [_ Hfull].
  destruct (Hfull Hne Hrange) as (c & σ' & -> & Hpage & Hlen & Hc).
  exists c. split; [exact Hlen|]. split; [exact Hc|].
  cbn [snd]. rewrite Hpage, (load_data_page _ _ _ _ Hload).
  rewrite !List.filter_app. split; reflexivity.
Qed.

Lemma completed_run_page_witness :
  length (List.filter is_chart
            (page (app (Tahun 2012) ["Summer"] (init sample_files)).2)) = 6.
Proof.
  destruct (completed_run_page (init sample_files)
              (load_data "day.csv" (init sample_files)).2 0 (Tahun 2012) ["Summer"])
    as (c & _ & _ & _ & Hcharts).
  - vm_compute. reflexivity.
  - vm_compute. discriminate.
  - apply (bool_decide_unpack _). vm_compute. exact I.
  - rewrite Hcharts. reflexivity.
Defined.

Lemma no_season_selected_view (tahun : tahun_choice) (l : list Row) :
  filter (selected tahun []) l = [].
Proof.
  induction l as [|r l IH]; [reflexivity|].
  rewrite filter_cons_False; [exact IH|].
  intros [_ Hs]. by apply elem_of_nil in Hs.
Qed.

(** X7. With every season deselected in the sidebar the view is empty
    whatever the table and the year, so every such run of a loaded table
    ends in the unhandled [ValueError]. *)
Theorem no_season_selected_raises (σ σ1 : state) (df_raw : loc) tahun :
  load_data "day.csv" σ = (Normal df_raw, σ1) →
  (app tahun [] σ).1 = Raised (ValueError "Cannot cut empty array").
Proof.
  intros Hload. rewrite (app_loaded _ _ _ _ _ Hload).
  destruct (dashboard_run σ1 df_raw tahun []) as [Hempty _].
  destruct Hempty as (σ' & -> & _); [apply no_season_selected_view|].
  reflexivity.
Qed.

Lemma no_season_selected_raises_witness :
  (app All [] (init sample_files)).1 = Raised (ValueError "Cannot cut empty array").
Proof.
  apply (no_season_selected_raises (init sample_files)
           (load_data "day.csv" (init sample_files)).2 0 All).
  vm_compute. reflexivity.
Defined.

(** ** The default selection *)

(** A loaded row passes the season filter with all four seasons selected
    exactly when its season code is one of 1-4. *)
Lemma default_seasons_selected (raw : RawRow) :
  selected All musim_options (load_row raw) ↔ (1 ≤ raw_season raw ≤ 4)%Z.
Proof.
  unfold selected. cbn [season load_row]. rewrite season_map_lookup.
  split.
  - intros [_ Hs].
    destruct (decide (1 ≤ raw_season raw ≤ 4)%Z) as [|Hout]; [done|].
    rewrite (season_label_out_of_range _ Hout) in Hs.
    apply list_elem_of_fmap in Hs as (s & [=] & _).
  - intros Hcode. split; [by left|].
    assert (raw_season raw = 1 ∨ raw_season raw = 2 ∨ raw_season raw = 3
            ∨ raw_season raw = 4)%Z as [ -> | [ -> | [ -> | -> ] ] ] by lia;
      cbn; repeat first [ apply list_elem_of_here | apply list_elem_of_further ].
Qed.

Lemma default_selection_view (raw : list RawRow) :
  filter (selected All musim_options) (load_row <$> raw)
  = load_row <$> filter (λ r, (1 ≤ raw_season r ≤ 4)%Z) raw.
Proof.
  induction raw as [|r raw IH]; [reflexivity|]. csimpl.
  destruct (decide (1 ≤ raw_season r ≤ 4)%Z) as [Hr|Hr].
  - rewrite !filter_cons_True by (done || by apply default_seasons_selected).
    csimpl. by rewrite IH.
  - rewrite !filter_cons_False by (done || by rewrite default_seasons_selected).
    exact IH.
Qed.

(** X8. With the sidebar's defaults (year "All", all four seasons) the
    view of a loaded table consists of exactly the lines whose season code
    is one of 1-4, in file order; when every code is valid the view is the
    whole table. *)
Theorem default_selection_keeps_valid_rows (σ : state) (df : loc) (raw : list RawRow) :
  rows (heap σ !!! df) = load_row <$> raw →
  ∃ l σ',
    filter_stage df All musim_options σ = (Normal l, σ') ∧
    rows (heap σ' !!! l) = load_row <$> filter (λ r, (1 ≤ raw_season r ≤ 4)%Z) raw ∧
    (Forall (λ r, (1 ≤ raw_season r ≤ 4)%Z) raw →
     rows (heap σ' !!! l) = rows (heap σ !!! df)).
Proof.
  intros Hrows.
  destruct (filter_stage_run σ df All musim_options) as (l & σ' & Hrun & _ & _ & Hview).
  exists l, σ'. split; [exact Hrun|].
  rewrite Hview, Hrows, default_selection_view. split; [reflexivity|].
  intros Hall. f_equal. clear -Hall.
  induction Hall as [|r raw Hr _ IH]; [reflexivity|].
  by rewrite filter_cons_True, IH.
Qed.

Lemma default_selection_keeps_valid_rows_witness :
  let σ := (load_data "day.csv" (init sample_files)).2 in
  ∃ l σ',
    filter_stage 0 All musim_options σ = (Normal l, σ') ∧
    rows (heap σ' !!! l) =
      load_row <$> [mkraw 2011 1 1 1 1 0 100; mkraw 2012 6 1 2 1 1 200].
Proof.
  destruct (default_selection_keeps_valid_rows
              (load_data "day.csv" (init sample_files)).2 0 sample_days)
    as (l & σ' & Hrun & Hrows & _).
  - vm_compute. reflexivity.
  - exists l, σ'. split; [exact Hrun|]. rewrite Hrows. reflexivity.
Defined.

(** A filtered view of a table with counts in range has counts in
    range. *)
Lemma counts_in_range_filter (P : Row → Prop) `{∀ r, Decision (P r)} (l : list Row) :
  counts_in_range l → counts_in_range (filter P l).
Proof.
  intros [Hall Hlen]. split.
  - apply Forall_forall. intros r [_ Hr]%list_elem_of_filter.
    rewrite Forall_forall in Hall. by apply Hall.
  - pose proof (length_filter P l). lia.
Qed.

(** X9. In a fresh process whose [day.csv] is non-empty, has only season
    codes 1-4 and counts in range (from 0 up to [2^32], fewer than [2^53]
    lines), every choice the year selector offers, together with the
    default season selection, gives a run that completes normally. *)
Theorem offered_year_completes (σ : state) (raw : list RawRow) (choice : tahun_choice) :
  cache σ !! "day.csv" = None →
  files σ !! "day.csv" = Some raw →
  raw ≠ [] →
  Forall (λ r, (1 ≤ raw_season r ≤ 4)%Z) raw →
  Forall (λ r, (0 ≤ raw_cnt r < 2 ^ 32)%Z) raw → (Z.of_nat (length raw) < 2 ^ 53)%Z →
  choice ∈ tahun_options {| rows := load_row <$> raw; cnt_cluster := None |} →
  (app choice musim_options σ).1 = Normal ().
Proof.
  intros Hc Hf Hne Hvalid Hcounts Hlen Hchoice.
  destruct (load_data_first σ "day.csv" raw Hc Hf) as (l & s & σ1 & Hload & _ & Hm & _).
  rewrite (app_loaded _ _ _ _ _ Hload).
  destruct (dashboard_run σ1 l choice musim_options) as [_ Hfull].
  destruct Hfull as (c & σ' & -> & _); [| |reflexivity];
    rewrite (lookup_total_correct _ _ _ Hm); cbn [rows].
  2: { apply counts_in_range_filter. split; [|by rewrite length_fmap].
       by apply Forall_fmap. }
  assert (Hex : ∃ r, r ∈ raw ∧ (choice = All ∨ choice = Tahun (year (load_row r)))).
  { unfold tahun_options in Hchoice.
    apply elem_of_cons in Hchoice as [->|Hchoice].
    - destruct raw as [|r raw']; [done|]. exists r. split; [left|by left].
    - apply list_elem_of_fmap in Hchoice as (y & -> & Hy).
      apply (proj1 (proj2 (sorted_unique_spec _) _)) in Hy.
      unfold column in Hy. cbn [rows] in Hy.
      apply list_elem_of_fmap in Hy as (r' & -> & Hr').
      apply list_elem_of_fmap in Hr' as (r & -> & Hr).
      exists r. split; [exact Hr | by right]. }
  destruct Hex as (r & Hr & Hyear).
  intros Hnil.
  assert (Hin : load_row r ∈ filter (selected choice musim_options) (load_row <$> raw)).
  { apply list_elem_of_filter. split; [|by apply list_elem_of_fmap_2].
    split; [exact Hyear|].
    rewrite Forall_forall in Hvalid.
    by apply default_seasons_selected, Hvalid. }
  rewrite Hnil in Hin. by apply elem_of_nil in Hin.
Qed.

Lemma offered_year_completes_witness :
  (app (Tahun 2012) musim_options (init two_year_files)).1 = Normal ().
Proof.
  apply (offered_year_completes (init two_year_files)
           [mkraw 2011 1 1 1 1 0 100; mkraw 2012 6 1 2 1 1 200] (Tahun 2012)).
  - reflexivity.
  - reflexivity.
  - discriminate.
  - repeat constructor; cbn; lia.
  - repeat constructor; cbn; lia.
  - vm_compute. reflexivity.
  - vm_compute. do 2 apply list_elem_of_further. apply list_elem_of_here.
Defined.

(** ** The labels of the extreme counts (lines 151-160) *)

(** X10. On a non-empty view with counts in range (from 0 up to [2^32],
    fewer than [2^53] rows) whose counts are not all equal, the stage
    labels every day with the minimum count "Rendah" and every day with
    the maximum count "Tinggi"; on a view whose counts are all equal it
    labels every day "Sedang". *)
Theorem extreme_counts_labels (σ : state) (df : loc) (mn mx : Z) :
  let view := rows (heap σ !!! df) in
  Pd.min (cnt <$> view) = Some mn → Pd.max (cnt <$> view) = Some mx →
  counts_in_range view →
  ∃ c σ',
    clustering_stage df σ = (Normal (), σ') ∧
    cnt_cluster (heap σ' !!! df) = Some c ∧
    ∀ i r, view !! i = Some r →
      ((mn < mx)%Z → cnt r = mn → c !! i = Some (Some "Rendah")) ∧
      ((mn < mx)%Z → cnt r = mx → c !! i = Some (Some "Tinggi")) ∧
      (mn = mx → c !! i = Some (Some "Sedang")).
Proof.
  intros view Hmin Hmax Hrange.
  assert (Hview : view ≠ []) by (intros Hnil; by rewrite Hnil in Hmin).
  destruct (clustering_stage_run σ df Hview Hrange) as (bins & Hlen & _ & Hext & Hrun).
  fold view in Hrun. unfold column in Hext, Hrun. fold view in Hext, Hrun.
  destruct (Hext mn mx Hmin Hmax) as [Hne Heq].
  set (c := Pd.bin_label bins cluster_labels true <$> (cnt <$> view)) in *.
  eexists c, _. split; [exact Hrun|]. cbn [heap set_heap].
  rewrite lookup_total_insert_eq. split; [reflexivity|].
  intros i r Hi.
  assert (Hci : c !! i = Some (Pd.bin_label bins cluster_labels true (cnt r))).
  { subst c. rewrite !list_lookup_fmap, Hi. reflexivity. }
  assert (Hr : (mn ≤ cnt r ≤ mx)%Z).
  { pose proof (min_lower_bound _ _ Hmin) as Hlo.
    pose proof (max_upper_bound _ _ Hmax) as Hhi.
    rewrite Forall_forall in Hlo, Hhi.
    assert (cnt r ∈ cnt <$> view)
      by (apply list_elem_of_fmap_2; by eapply list_elem_of_lookup_2).
    split; [by apply Hlo | by apply Hhi]. }
  rewrite Hci. unfold Pd.bin_label. rewrite Hlen.
  split; [|split].
  - intros Hlt ->. destruct (Hne Hlt) as [-> _]. reflexivity.
  - intros Hlt ->. destruct (Hne Hlt) as [_ ->]. reflexivity.
  - intros ->. assert (cnt r = mx) as -> by lia. rewrite (Heq eq_refl). reflexivity.
Qed.

Lemma extreme_counts_labels_witness :
  let σ := (load_data "day.csv" (init sample_files)).2 in
  ∃ c σ',
    clustering_stage 0 σ = (Normal (), σ') ∧
    cnt_cluster (heap σ' !!! 0) = Some c ∧
    c !! 0 = Some (Some "Rendah") ∧ c !! 2 = Some (Some "Tinggi").
Proof.
  destruct (extreme_counts_labels (load_data "day.csv" (init sample_files)).2 0 100 300)
    as (c & σ' & Hrun & Hc & Hlabels).
  - vm_compute. reflexivity.
  - vm_compute. reflexivity.
  - apply (bool_decide_unpack _). vm_compute. exact I.
  - exists c, σ'. split; [exact Hrun|]. split; [exact Hc|]. split.
    + apply (Hlabels 0 (load_row (mkraw 2011 1 1 1 1 0 100))); [reflexivity|lia|reflexivity].
    + apply (Hlabels 2 (load_row (mkraw 2012 6 2 7 1 1 300))); [reflexivity|lia|reflexivity].
Defined.

(** ** More on the loader and the views *)

Lemma workingday_map_lookup (c : Z) :
  workingday_map !! c =
    if (c =? 0)%Z then Some "Akhir Pekan/Hari Libur"
    else if (c =? 1)%Z then Some "Hari Kerja" else None.
Proof. unfold workingday_map. table_lookup c. Qed.

(** X11. A working-day flag other than 0 and 1 has no entry in the
    loader's dictionary: the row gets a missing working-day label (and
    nothing is raised); flags 0 and 1 always get a label. *)
Theorem workingday_label_missing_iff (r : RawRow) :
  workingday_label (load_row r) = None ↔
  raw_workingday r ≠ 0%Z ∧ raw_workingday r ≠ 1%Z.
Proof.
  cbn [workingday_label load_row]. rewrite workingday_map_lookup.
  destruct (Z.eqb_spec (raw_workingday r) 0) as [->|H0].
  { split; [discriminate | by intros [? _]]. }
  destruct (Z.eqb_spec (raw_workingday r) 1) as [->|H1].
  { split; [discriminate | by intros [_ ?]]. }
  split; done.
Qed.

(** Over a duplicate-free list of years that contains the year of every
    row, the per-year row counts add up to the number of rows. *)
Lemma year_counts_add_up (ys : list Z) (l : list Row) :
  NoDup ys → Forall (λ r, year r ∈ ys) l →
  sum_list ((λ y, length (filter (λ r, year r = y) l)) <$> ys) = length l.
Proof.
  intros Hnd Hall. induction Hall as [|r l Hr _ IH].
  { clear Hnd. induction ys as [|y ys IHys]; [reflexivity|]. csimpl. exact IHys. }
  cbn [length]. rewrite <- IH. clear IH.
  induction Hnd as [|y ys Hy Hnd IHys]; [by apply elem_of_nil in Hr|].
  csimpl. destruct (decide (year r = y)) as [Heq|Hneq].
  - rewrite filter_cons_True by done. cbn [length].
    assert (Hrest : (λ y0, length (filter (λ r0, year r0 = y0) (r :: l))) <$> ys
                    = (λ y0, length (filter (λ r0, year r0 = y0) l)) <$> ys).
    { apply list_fmap_ext. intros i y' Hy'.
      rewrite filter_cons_False; [reflexivity|].
      intros Hry. apply list_elem_of_lookup_2 in Hy'. congruence. }
    rewrite Hrest. lia.
  - rewrite filter_cons_False by done.
    apply elem_of_cons in Hr as [?|Hr]; [done|].
    rewrite (IHys Hr). lia.
Qed.

(** X12. For any season selection, the views of the individual years the
    selector offers partition the view of "All": their row counts (the
    "Total Hari" metric of each year) add up to the row count for "All". *)
Theorem year_views_partition (f : frame) (musim : list string) :
  let view := λ t, filter (selected t musim) (rows f) in
  sum_list ((λ t, length (view t)) <$> tail (tahun_options f)) = length (view All).
Proof.
  cbn zeta. unfold tahun_options. cbn [tail].
  destruct (sorted_unique_spec (column f year)) as [Hsorted Hin].
  set (ys := merge_sort Z.le (remove_dups (column f year))) in *.
  rewrite <- list_fmap_compose.
  rewrite <- (year_counts_add_up ys (filter (selected All musim) (rows f))).
  - f_equal. apply list_fmap_ext. intros _ y _. cbn. f_equal.
    rewrite list_filter_filter. apply list_filter_iff. intros r.
    unfold selected. split.
    + intros [[?|[= ->]] Hs]; [done|]. split; [done|]. split; [by left|done].
    + intros [<- [_ Hs]]. split; [by right|done].
  - subst ys. rewrite merge_sort_Permutation. apply NoDup_remove_dups.
  - apply Forall_forall. intros r [_ Hr]%list_elem_of_filter.
    apply Hin. unfold column. by apply list_elem_of_fmap_2.
Qed.
(** X13. On a non-empty view the maximum and the minimum shown by the
    panel are the counts of days of the view, and every day's count lies
    between them. *)
Theorem max_min_attained (σ : state) (df : loc) :
  let view := rows (heap σ !!! df) in
  view ≠ [] →
  ∃ rmin rmax,
    rmin ∈ view ∧ rmax ∈ view ∧
    StMetric "Maksimum Peminjaman / Hari" (MInt (Some (cnt rmax)))
      ∈ page (metrics_panel df σ).2 ∧
    StMetric "Minimum Peminjaman / Hari" (MInt (Some (cnt rmin)))
      ∈ page (metrics_panel df σ).2 ∧
    Forall (λ r, (cnt rmin ≤ cnt r ≤ cnt rmax)%Z) view.
Proof.
  intros view Hne.
  destruct (min_max_exist (cnt <$> view)) as (mn & mx & Hmin & Hmax & Hall).
  { by intros ?%fmap_nil_inv. }
  pose proof (min_in _ _ Hmin) as Hrmin.
  apply list_elem_of_fmap in Hrmin as (rmin & Emin & Hrmin).
  pose proof (max_in _ _ Hmax) as Hrmax.
  apply list_elem_of_fmap in Hrmax as (rmax & Emax & Hrmax).
  subst mn mx.
  exists rmin, rmax. split; [exact Hrmin|]. split; [exact Hrmax|].
  rewrite metrics_panel_run. fold view. cbn [snd page set_page].
  rewrite Hmin, Hmax. split; [|split].
  - apply elem_of_app. right.
    do 2 apply list_elem_of_further. apply list_elem_of_here.
  - apply elem_of_app. right.
    do 3 apply list_elem_of_further. apply list_elem_of_here.
  - by apply Forall_fmap in Hall.
Qed.

Lemma max_min_attained_witness :
  let σ := (load_data "day.csv" (init sample_files)).2 in
  ∃ rmin rmax,
    rmin ∈ rows (heap σ !!! 0) ∧ rmax ∈ rows (heap σ !!! 0) ∧
    Forall (λ r, (cnt rmin ≤ cnt r ≤ cnt rmax)%Z) (rows (heap σ !!! 0)).
Proof.
  destruct (max_min_attained (load_data "day.csv" (init sample_files)).2 0)
    as (rmin & rmax & Hmin & Hmax & _ & _ & Hall).
  - vm_compute. discriminate.
  - exists rmin, rmax. split; [exact Hmin|]. split; [exact Hmax|]. exact Hall.
Defined.

Lemma app_missing_file (σ : state) tahun musim :
  cache σ !! "day.csv" = None → files σ !! "day.csv" = None →
  app tahun musim σ = (Stopped, set_page (page σ ++ [StError not_found_message]) σ).
Proof.
  intros Hc Hf.
  unfold app, load_or_stop, try_except, load_data, cache_data,
    load_data_body, read_csv, mbind, M_bind.
  by rewrite Hc, Hf.
Qed.

(** X14. A run that stopped on the missing file caches nothing: once
    [day.csv] exists, the next run's loader reads it and returns the table
    of its mapped lines. *)
Theorem load_recovers_after_missing_file (σ : state) tahun musim (raw : list RawRow)
    (fs' : gmap string (list RawRow)) :
  cache σ !! "day.csv" = None → files σ !! "day.csv" = None →
  fs' !! "day.csv" = Some raw →
  let σ' := set_files fs' (app tahun musim σ).2 in
  ∃ l σ1,
    load_or_stop σ' = (Normal l, σ1) ∧
    heap σ1 !! l = Some {| rows := load_row <$> raw; cnt_cluster := None |} ∧
    page σ1 = page σ ++ [StError not_found_message].
Proof.
  intros Hc Hf Hfs'. cbn zeta. rewrite (app_missing_file _ _ _ Hc Hf). cbn [snd].
  destruct (load_data_first
              (set_files fs' (set_page (page σ ++ [StError not_found_message]) σ))
              "day.csv" raw) as (l & s & σ1 & Hload & _ & Hm & _); [done | done |].
  exists l, σ1. unfold load_or_stop, try_except. rewrite Hload.
  split; [reflexivity|]. split; [exact Hm|].
  by rewrite (load_data_page _ _ _ _ Hload).
Qed.

Lemma load_recovers_after_missing_file_witness :
  let σ' := set_files sample_files (app All musim_options (init ∅)).2 in
  ∃ l σ1,
    load_or_stop σ' = (Normal l, σ1) ∧
    heap σ1 !! l = Some {| rows := load_row <$> sample_days; cnt_cluster := None |} ∧
    page σ1 = [StError not_found_message].
Proof.
  apply (load_recovers_after_missing_file (init ∅) All musim_options sample_days
           sample_files); reflexivity.
Defined.
